(** * Simple_DropBox: the Merkle-tree reconciliation core

    A shallow embedding of the client Merkle tree
    ([client/lib/merkle-tree.js]), the server diff service
    ([routes/merkle.js]), the change detector ([client/lib/file-watcher.js])
    and the sync orchestrator ([client/lib/sync.js]), followed by the
    properties of the design document that can be settled on them.

    JavaScript [Map]s whose iteration order is observable (the leaves of the
    tree, the path-keyed maps of the diff) are association lists that keep
    insertion order; the loop-prevention map and set, whose order is never
    observed, are [gmap] and [gset]. *)

From stdpp Require Import base strings list gmap.
From Stdlib Require Import ZArith.

Open Scope string_scope.
Set Warnings "-register-all".

(** ** JavaScript values held by the optional fields of a file entry *)

Inductive jsval : Type :=
| JUndefined
| JNull
| JString (s : string).

#[global] Instance jsval_eq_dec : EqDecision jsval.
Proof. solve_decision. Defined.

(** Truthiness: [undefined], [null] and the empty string are falsy. *)
Definition truthy (v : jsval) : bool :=
  match v with
  | JString s => negb (String.eqb s EmptyString)
  | _ => false
  end.

(** [a || b] *)
Definition js_or (a b : jsval) : jsval := if truthy a then a else b.

(** Truthiness of a value that is a string or [null]. *)
Definition truthy_str (v : option string) : bool :=
  match v with
  | Some s => negb (String.eqb s EmptyString)
  | None => false
  end.

(** ** JavaScript [Map] with string keys: insertion-ordered *)

Section JsMap.
Context {V : Type}.

Fixpoint map_get (k : string) (m : list (string * V)) : option V :=
  match m with
  | [] => None
  | (k', v) :: m' => if decide (k = k') then Some v else map_get k m'
  end.

Definition map_has (k : string) (m : list (string * V)) : bool :=
  bool_decide (is_Some (map_get k m)).

(** [m.set(k, v)]: an existing key keeps its position, a new key goes last. *)
Fixpoint map_set (k : string) (v : V) (m : list (string * V)) : list (string * V) :=
  match m with
  | [] => [(k, v)]
  | (k', v') :: m' =>
      if decide (k = k') then (k, v) :: m' else (k', v') :: map_set k v m'
  end.

(** [m.delete(k)]: the map without [k], and whether [k] was there. *)
Fixpoint map_delete (k : string) (m : list (string * V)) : list (string * V) :=
  match m with
  | [] => []
  | (k', v') :: m' =>
      if decide (k = k') then m' else (k', v') :: map_delete k m'
  end.

Definition map_values (m : list (string * V)) : list V := m.*2.
Definition map_keys (m : list (string * V)) : list string := m.*1.
End JsMap.

(** ** What the code takes from Node's libraries *)

(** [crypto.createHash('sha256').update(s).digest('hex')] *)
Class Crypto := { sha256_hex : string → string }.

(** ** File entries *)

Record FileData : Type := mkFileData {
  filename : string;
  file_path : string;
  local_url : jsval;
  s3_url : jsval;
  hash : string;
  size : Z;
  timestamp : jsval;
  mime_type : jsval;
  (* [id]: absent in a tree, added by the server when it enriches a diff *)
  file_id : jsval
}.

#[global] Instance FileData_eq_dec : EqDecision FileData.
Proof. solve_decision. Defined.

(** The object literals handed to [addOrUpdateFile]: the change detector's
    has [file_path] and [timestamp], the sync orchestrator's has neither; the
    six other properties are always there. *)
Record Metadata : Type := mkMetadata {
  m_file_path : option string;
  m_filename : string;
  m_local_url : jsval;
  m_s3_url : jsval;
  m_hash : string;
  m_size : Z;
  m_timestamp : jsval;
  m_mime_type : jsval
}.

(** A file of a snapshot, read as the [metadata] of [createFileNode]. *)
Definition metadata_of_file (f : FileData) : Metadata :=
  {| m_file_path := Some (file_path f);
     m_filename := filename f;
     m_local_url := local_url f;
     m_s3_url := s3_url f;
     m_hash := hash f;
     m_size := size f;
     m_timestamp := timestamp f;
     m_mime_type := mime_type f |}.

(** The snapshot wire format. [files] may be missing from the object. *)
Record TreeJSON : Type := mkTreeJSON {
  rootHash : option string;
  json_timestamp : jsval;
  files : option (list FileData)
}.

Record Differences : Type := mkDifferences {
  added : list FileData;
  modified : list FileData;
  deleted : list FileData
}.

(** ** client/lib/merkle-tree.js *)

Module ClientMerkle.

Inductive MerkleNode : Type := mkNode {
  data : option FileData;
  left : option MerkleNode;
  right : option MerkleNode;
  node_hash : string;
  isLeaf : bool
}.

Record MerkleTree : Type := mkTree {
  root : option MerkleNode;
  leaves : list (string * MerkleNode)
}.

Section WithCrypto.
Context `{Crypto}.

(** [calculateHash] reads [this.isLeaf], [this.data], [this.left] and
    [this.right]. [this.isLeaf] is [None] while the constructor has not
    assigned it yet ([undefined], falsy). *)
Definition calculateHash (this_isLeaf : option bool) (this_data : option FileData)
    (this_left this_right : option MerkleNode) : string :=
  match this_isLeaf, this_data with
  | Some true, Some d => hash d
  | _, _ =>
      match this_left, this_right with
      | Some l, Some r => sha256_hex (node_hash l +:+ node_hash r)
      | Some l, None => node_hash l
      | None, Some r => node_hash r
      | None, None => sha256_hex "empty"
      end
  end.

(** [new MerkleNode(data, left, right)]: the fields are assigned in the
    order of the constructor, [hash] before [isLeaf]. *)
Definition new_MerkleNode (d : option FileData) (l r : option MerkleNode) : MerkleNode :=
  let h := calculateHash None d l r in
  mkNode d l r h (negb (bool_decide (is_Some l)) && negb (bool_decide (is_Some r))).

Definition recalculateHash (n : MerkleNode) : MerkleNode :=
  mkNode (data n) (left n) (right n)
    (calculateHash (Some (isLeaf n)) (data n) (left n) (right n)) (isLeaf n).

(** [new MerkleTree()] *)
Definition new_MerkleTree : MerkleTree := mkTree None [].

(** [createFileNode]: returns the leaves with the new node set. *)
Definition createFileNode (filePath : string) (metadata : Metadata) (now : string)
    (lv : list (string * MerkleNode)) : list (string * MerkleNode) :=
  let node := new_MerkleNode (Some
    {| filename := m_filename metadata;
       file_path := filePath;
       local_url := m_local_url metadata;
       s3_url := js_or (m_s3_url metadata) JNull;
       hash := m_hash metadata;
       size := m_size metadata;
       timestamp := js_or (m_timestamp metadata) (JString now);
       mime_type := m_mime_type metadata;
       file_id := JUndefined |}) None None in
  map_set filePath node lv.

(** One pass of the [for] loop of [rebuildTree]: nodes are paired two at
    a time, the last one alone when the level is odd. *)
Fixpoint pair_up (currentLevel : list MerkleNode) : list MerkleNode :=
  match currentLevel with
  | l :: r :: rest => new_MerkleNode None (Some l) (Some r) :: pair_up rest
  | [l] => [new_MerkleNode None (Some l) None]
  | [] => []
  end.

(** The [while (currentLevel.length > 1)] loop, [fuel] passes at most. *)
Fixpoint build_levels (fuel : nat) (currentLevel : list MerkleNode) : list MerkleNode :=
  match fuel with
  | O => currentLevel
  | S fuel' =>
      if decide (1 < length currentLevel)
      then build_levels fuel' (pair_up currentLevel)
      else currentLevel
  end.

Definition rebuildTree (t : MerkleTree) : MerkleTree :=
  let leafNodes := map_values (leaves t) in
  match leafNodes with
  | [] => mkTree None (leaves t)
  | [n] => mkTree (Some n) (leaves t)
  | _ => mkTree (head (build_levels (length leafNodes) leafNodes)) (leaves t)
  end.

(** [{...existingNode.data, ...metadata, timestamp: now}]. Were the old
    data [null], the object would have no [file_path] of its own unless
    [metadata] has one, and [getAllFiles] would then report the key. *)
Definition spread_update (old : option FileData) (filePath : string)
    (metadata : Metadata) (now : string) : FileData :=
  {| filename := m_filename metadata;
     file_path := match m_file_path metadata, old with
                  | Some p, _ => p
                  | None, Some d => file_path d
                  | None, None => filePath
                  end;
     local_url := m_local_url metadata;
     s3_url := m_s3_url metadata;
     hash := m_hash metadata;
     size := m_size metadata;
     timestamp := JString now;
     mime_type := m_mime_type metadata;
     file_id := match old with Some d => file_id d | None => JUndefined end |}.

(** [addOrUpdateFile]. The existing node is changed in place: it keeps its
    position in [leaves]. *)
Definition addOrUpdateFile (filePath : string) (metadata : Metadata) (now : string)
    (t : MerkleTree) : MerkleTree :=
  match map_get filePath (leaves t) with
  | Some existingNode =>
      let updated := mkNode (Some (spread_update (data existingNode) filePath metadata now))
                       (left existingNode) (right existingNode)
                       (node_hash existingNode) (isLeaf existingNode) in
      rebuildTree (mkTree (root t) (map_set filePath (recalculateHash updated) (leaves t)))
  | None =>
      rebuildTree (mkTree (root t) (createFileNode filePath metadata now (leaves t)))
  end.

Definition getFile (filePath : string) (t : MerkleTree) : option FileData :=
  match map_get filePath (leaves t) with
  | Some node => data node
  | None => None
  end.

(** [updateS3Url]: the returned boolean and the tree afterwards. *)
Definition updateS3Url (filePath : string) (s3Url : string) (now : string)
    (t : MerkleTree) : bool * MerkleTree :=
  match map_get filePath (leaves t) with
  | Some node =>
      match data node with
      | Some d =>
          let d' := {| filename := filename d; file_path := file_path d;
                       local_url := local_url d; s3_url := JString s3Url;
                       hash := hash d; size := size d;
                       timestamp := JString now; mime_type := mime_type d;
                       file_id := file_id d |} in
          let node' := recalculateHash
            (mkNode (Some d') (left node) (right node) (node_hash node) (isLeaf node)) in
          (true, rebuildTree (mkTree (root t) (map_set filePath node' (leaves t))))
      | None => (false, t)
      end
  | None => (false, t)
  end.

Definition removeFile (filePath : string) (t : MerkleTree) : bool * MerkleTree :=
  if map_has filePath (leaves t)
  then (true, rebuildTree (mkTree (root t) (map_delete filePath (leaves t))))
  else (false, t).

(** [getAllFiles]: [{file_path: filePath, ...node.data}] is [node.data],
    whose own [file_path] wins over the key. *)
Definition getAllFiles (t : MerkleTree) : list FileData :=
  omap data (map_values (leaves t)).

Definition getRootHash (t : MerkleTree) : option string :=
  match root t with
  | Some r => Some (node_hash r)
  | None => None
  end.

Definition toJSON (now : string) (t : MerkleTree) : TreeJSON :=
  {| rootHash := getRootHash t;
     json_timestamp := JString now;
     files := Some (getAllFiles t) |}.

Definition fromJSON (json : TreeJSON) (now : string) (t : MerkleTree) : MerkleTree :=
  let cleared := [] in
  let lv :=
    match files json with
    | Some fs =>
        foldl (λ lv file, createFileNode (file_path file) (metadata_of_file file) now lv)
              cleared fs
    | None => cleared
    end in
  rebuildTree (mkTree (root t) lv).

(** The first loop of [getDifferences], over [myFiles]. *)
Fixpoint added_modified (myFiles otherFiles : list (string * FileData))
    : list FileData * list FileData :=
  match myFiles with
  | [] => ([], [])
  | (filePath, file) :: rest =>
      let '(a, m) := added_modified rest otherFiles in
      if negb (map_has filePath otherFiles)
      then (file :: a, m)
      else
        match map_get filePath otherFiles with
        | Some otherFile =>
            if bool_decide (hash file ≠ hash otherFile)
               || bool_decide (timestamp file ≠ timestamp otherFile)
            then (a, file :: m)
            else (a, m)
        | None => (a, m) (* not reached: [has] was true *)
        end
  end.

(** The second loop, over [otherFiles]. *)
Fixpoint only_in_other (otherFiles myFiles : list (string * FileData)) : list FileData :=
  match otherFiles with
  | [] => []
  | (filePath, file) :: rest =>
      if negb (map_has filePath myFiles)
      then file :: only_in_other rest myFiles
      else only_in_other rest myFiles
  end.

(** [new Map()] filled with [set(file.file_path, file)] for each file. *)
Definition index_by_path (fs : list FileData) : list (string * FileData) :=
  foldl (λ m file, map_set (file_path file) file m) [] fs.

Definition getDifferences (this otherTree : MerkleTree) : Differences :=
  let myFiles := index_by_path (getAllFiles this) in
  let otherFiles := index_by_path (getAllFiles otherTree) in
  let '(a, m) := added_modified myFiles otherFiles in
  {| added := a; modified := m; deleted := only_in_other otherFiles myFiles |}.

(** [isFileUploaded]: the value of [node && node.data && node.data.s3_url]. *)
Definition isFileUploaded (filePath : string) (t : MerkleTree) : jsval :=
  match map_get filePath (leaves t) with
  | Some node =>
      match data node with
      | Some d => s3_url d
      | None => JNull
      end
  | None => JUndefined
  end.

Definition getFileMetadata (filePath : string) (t : MerkleTree) : option FileData :=
  match map_get filePath (leaves t) with
  | Some node => data node
  | None => None
  end.

(** [getAllFiles().filter(file => file.s3_url)] *)
Definition getUploadedFiles (t : MerkleTree) : list FileData :=
  filter (λ file, truthy (s3_url file) = true) (getAllFiles t).

(** [getAllFiles().filter(file => !file.s3_url)] *)
Definition getPendingUploads (t : MerkleTree) : list FileData :=
  filter (λ file, truthy (s3_url file) = false) (getAllFiles t).

End WithCrypto.
End ClientMerkle.

(** ** routes/merkle.js *)

Module ServerMerkle.

(** The server's own, smaller [MerkleTree]: a [Map] from path to file. *)
Record MerkleTree : Type := mkTree {
  tree_files : list (string * FileData)
}.

Definition new_MerkleTree : MerkleTree := mkTree [].

Definition fromJSON (json : TreeJSON) (t : MerkleTree) : MerkleTree :=
  let cleared := [] in
  match files json with
  | Some fs => mkTree (foldl (λ m file, map_set (file_path file) file m) cleared fs)
  | None => mkTree cleared
  end.

Definition getAllFiles (t : MerkleTree) : list FileData := map_values (tree_files t).

Fixpoint added_modified (myFiles otherFiles : list (string * FileData))
    : list FileData * list FileData :=
  match myFiles with
  | [] => ([], [])
  | (filePath, file) :: rest =>
      let '(a, m) := added_modified rest otherFiles in
      if negb (map_has filePath otherFiles)
      then (file :: a, m)
      else
        match map_get filePath otherFiles with
        | Some otherFile =>
            if bool_decide (hash file ≠ hash otherFile)
               || bool_decide (timestamp file ≠ timestamp otherFile)
            then (a, file :: m)
            else (a, m)
        | None => (a, m) (* not reached: [has] was true *)
        end
  end.

Fixpoint only_in_other (otherFiles myFiles : list (string * FileData)) : list FileData :=
  match otherFiles with
  | [] => []
  | (filePath, file) :: rest =>
      if negb (map_has filePath myFiles)
      then file :: only_in_other rest myFiles
      else only_in_other rest myFiles
  end.

Definition getDifferences (this otherTree : MerkleTree) : Differences :=
  let myFiles := tree_files this in
  let otherFiles :=
    foldl (λ m file, map_set (file_path file) file m) [] (getAllFiles otherTree) in
  let '(a, m) := added_modified myFiles otherFiles in
  {| added := a; modified := m; deleted := only_in_other otherFiles myFiles |}.

(** The [files] table and the object store, as far as the diff needs them. *)
Inductive QueryResult : Type :=
| QueryThrows
| NoRows
| Row (minio_key : string) (id : string).

Record Backend : Type := mkBackend {
  (* SELECT minio_key, id FROM files WHERE user_id = $1 AND file_hash = $2 ... LIMIT 1 *)
  select_active_by_hash : string → string → QueryResult;
  (* generatePresignedUrl: null when the object store refuses *)
  generatePresignedUrl : string → option string
}.

Definition enrichFile (b : Backend) (userId : string) (file : FileData) : FileData :=
  match select_active_by_hash b userId (hash file) with
  | Row key id =>
      let freshUrl := generatePresignedUrl b key in
      {| filename := filename file; file_path := file_path file;
         local_url := local_url file;
         s3_url := match freshUrl with
                   | Some u => if truthy (JString u) then JString u else s3_url file
                   | None => s3_url file
                   end;
         hash := hash file; size := size file; timestamp := timestamp file;
         mime_type := mime_type file;
         file_id := JString id |}
  | NoRows => file
  | QueryThrows => file
  end.

Definition enrichFilesWithFreshUrls (b : Backend) (fs : list FileData) (userId : string)
    : list FileData :=
  enrichFile b userId <$> fs.

(** A row of [merkle_trees]. *)
Record TreeRow : Type := mkTreeRow {
  root_hash : option string;
  tree_data : TreeJSON;
  version : Z
}.

Record DiffResponse : Type := mkDiffResponse {
  differences : Differences;
  serverRootHash : option string;
  localRootHash : option string
}.

(** The differences of [POST /diff] before they are enriched;
    [serverResult] is the row found for (user, device), if any. *)
Definition diff_differences (serverResult : option TreeRow) (localTreeData : TreeJSON)
    : Differences :=
  match serverResult with
  | Some row =>
      let serverTree := fromJSON (tree_data row) new_MerkleTree in
      let localTree := fromJSON localTreeData new_MerkleTree in
      getDifferences serverTree localTree
  | None =>
      {| added := []; modified := []; deleted := [] |}
  end.

(** [router.post('/diff')], after validation. *)
Definition post_diff (b : Backend) (userId : string) (serverResult : option TreeRow)
    (localTreeData : TreeJSON) : DiffResponse :=
  let d := diff_differences serverResult localTreeData in
  {| differences :=
       {| added := enrichFilesWithFreshUrls b (added d) userId;
          modified := enrichFilesWithFreshUrls b (modified d) userId;
          deleted := deleted d |};
     serverRootHash := match serverResult with
                       | Some row => root_hash row
                       | None => None
                       end;
     localRootHash := if truthy_str (rootHash localTreeData)
                      then rootHash localTreeData else None |}.

End ServerMerkle.

(** ** Node's [path] module and the client configuration *)

Class PathLib := {
  path_relative : string → string → string;
  path_basename : string → string;
  path_join : string → string → string;
  path_extname : string → string
}.

(** config.js *)
Class Config := {
  WATCH_DIRECTORY : string;
  DEVICE_ID : string;
  SYNC_INTERVAL : Z
}.

(** What a handler reads from outside when it runs: the clock
    ([Date.now()], [new Date().toISOString()]). *)
Record Ambient : Type := mkAmbient {
  now_ms : Z;
  now_iso : string
}.

(** ** client/lib/file-watcher.js *)

Module FileWatcher.

Record QueueItem : Type := mkQueueItem {
  fullPath : string;
  relativePath : string;
  q_timestamp : Z;
  q_hash : option string
}.

Record RecentDownload : Type := mkRecentDownload {
  rd_hash : option string;
  rd_timestamp : Z
}.

(** Pending [setTimeout] callbacks. *)
Inductive Timer : Type :=
| ProcessUploadQueueIn (delay : Z)
| ExpireRecentDownloadIn (relativePath : string) (delay : Z).

(** Requests sent to the server, oldest first. *)
Inductive ApiCall : Type :=
| DeleteFileByHash (fileHash : string)
| UpdateMerkleTree (deviceId : string) (snapshot : TreeJSON)
| GetMerkleTreeDifferences (deviceId : string) (snapshot : TreeJSON)
| DownloadFile (id : jsval) (localPath : string).

(** The module-level state of the client, with the watched directory
    ([fs]: absolute path to content) and the parsed content of
    [.merkle-tree.json] ([treeFile]). *)
Record Client : Type := mkClient {
  fs : gmap string string;
  treeFile : option TreeJSON;
  uploadQueue : list (string * QueueItem);
  isProcessing : bool;
  downloadingFiles : gset string;
  recentlyDownloaded : gmap string RecentDownload;
  merkleTree : ClientMerkle.MerkleTree;
  timers : list Timer;
  requests : list ApiCall;
  lastSyncAt : option string
}.

Inductive EventType : Type := Add | Change | Unlink.

(** [/suffix$/.test(s)] *)
Definition ends_with (suffix s : string) : bool :=
  let n := String.length s in
  let k := String.length suffix in
  bool_decide (k ≤ n)%nat && String.eqb (String.substring (n - k) k s) suffix.

(** [/sub/.test(s)] *)
Definition contains (sub s : string) : bool :=
  bool_decide (is_Some (String.index 0 sub s)).

Section WithPlatform.
Context `{Crypto} `{PathLib} `{Config}.

Definition set_merkleTree (t : ClientMerkle.MerkleTree) (c : Client) : Client :=
  mkClient (fs c) (treeFile c) (uploadQueue c) (isProcessing c) (downloadingFiles c)
           (recentlyDownloaded c) t (timers c) (requests c) (lastSyncAt c).

(** The watched directory changes under the client. *)
Definition set_fs (disk : gmap string string) (c : Client) : Client :=
  mkClient disk (treeFile c) (uploadQueue c) (isProcessing c) (downloadingFiles c)
           (recentlyDownloaded c) (merkleTree c) (timers c) (requests c) (lastSyncAt c).

Definition send (call : ApiCall) (c : Client) : Client :=
  mkClient (fs c) (treeFile c) (uploadQueue c) (isProcessing c) (downloadingFiles c)
           (recentlyDownloaded c) (merkleTree c) (timers c) (requests c ++ [call])
           (lastSyncAt c).

(** [saveMerkleTree]; the write of the file is taken to succeed. *)
Definition saveMerkleTree (w : Ambient) (c : Client) : Client :=
  mkClient (fs c) (Some (ClientMerkle.toJSON (now_iso w) (merkleTree c)))
           (uploadQueue c) (isProcessing c) (downloadingFiles c)
           (recentlyDownloaded c) (merkleTree c) (timers c) (requests c) (lastSyncAt c).

Definition shouldIgnoreFile (filePath : string) : bool :=
  let basename := path_basename filePath in
  let test (pattern : string → bool) := pattern basename || pattern filePath in
  test (String.prefix ".")          (* /^\./ *)
  || test (ends_with "~")           (* /~$/ *)
  || test (ends_with ".tmp")        (* /\.tmp$/ *)
  || test (ends_with ".log")        (* /\.log$/ *)
  || test (contains "node_modules") (* /node_modules/ *)
  || test (contains ".git").        (* /\.git/ *)

(** [null] when the file cannot be read. *)
Definition calculateFileHash (files : gmap string string) (filePath : string)
    : option string :=
  match files !! filePath with
  | Some buffer => Some (sha256_hex buffer)
  | None => None
  end.

Definition ascii_lower (a : Ascii.ascii) : Ascii.ascii :=
  let n := Ascii.nat_of_ascii a in
  if bool_decide (65 ≤ n ≤ 90)%nat then Ascii.ascii_of_nat (n + 32) else a.

Fixpoint toLowerCase (s : string) : string :=
  match s with
  | EmptyString => EmptyString
  | String a s' => String (ascii_lower a) (toLowerCase s')
  end.

Definition mimeTypes : list (string * string) :=
  [ (".txt", "text/plain"); (".json", "application/json");
    (".js", "application/javascript"); (".html", "text/html");
    (".css", "text/css"); (".png", "image/png"); (".jpg", "image/jpeg");
    (".jpeg", "image/jpeg"); (".gif", "image/gif"); (".pdf", "application/pdf");
    (".zip", "application/zip") ].

Definition getMimeType (filePath : string) : string :=
  let ext := toLowerCase (path_extname filePath) in
  match map_get ext mimeTypes with
  | Some t => t
  | None => "application/octet-stream"
  end.

Definition queueUpload (filePath relPath : string) (w : Ambient) (c : Client) : Client :=
  let item := {| fullPath := filePath; relativePath := relPath;
                 q_timestamp := now_ms w;
                 q_hash := calculateFileHash (fs c) filePath |} in
  mkClient (fs c) (treeFile c) (map_set relPath item (uploadQueue c)) (isProcessing c)
           (downloadingFiles c) (recentlyDownloaded c) (merkleTree c)
           (timers c ++ [ProcessUploadQueueIn 1000]) (requests c) (lastSyncAt c).

(** [handleLocalDeletion]; both requests are best effort, their failure
    is caught and changes nothing locally. *)
Definition handleLocalDeletion (relPath : string) (w : Ambient) (c : Client) : Client :=
  let c1 :=
    match ClientMerkle.getFile relPath (merkleTree c) with
    | Some fileInfo =>
        if negb (String.eqb (hash fileInfo) EmptyString)
        then send (DeleteFileByHash (hash fileInfo)) c
        else c
    | None => c
    end in
  let c2 := set_merkleTree (ClientMerkle.removeFile relPath (merkleTree c1)).2 c1 in
  let c3 := saveMerkleTree w c2 in
  send (UpdateMerkleTree DEVICE_ID (ClientMerkle.toJSON (now_iso w) (merkleTree c3))) c3.

Definition is_add_or_change (eventType : EventType) : bool :=
  match eventType with Add | Change => true | Unlink => false end.

(** [handleFileChange]. [fs.stat] sees the file that [calculateFileHash]
    has just read, so it cannot fail where it is called. *)
Definition handleFileChange (filePath : string) (eventType : EventType) (w : Ambient)
    (c : Client) : Client :=
  if shouldIgnoreFile filePath then c else
  let relPath := path_relative WATCH_DIRECTORY filePath in
  if bool_decide (relPath ∈ downloadingFiles c) then c else
  if is_add_or_change eventType then
    let currentHash := calculateFileHash (fs c) filePath in
    let recentDownload := recentlyDownloaded c !! relPath in
    if match recentDownload with
       | Some rd => bool_decide (currentHash = rd_hash rd)
       | None => false
       end
    then c
    else
      let c1 :=
        match currentHash, fs c !! filePath with
        | Some h, Some buffer =>
            if negb (String.eqb h EmptyString) then
              let metadata :=
                {| m_file_path := Some relPath;
                   m_filename := path_basename filePath;
                   m_local_url := JString filePath;
                   m_s3_url := JNull;
                   m_hash := h;
                   m_size := Z.of_nat (String.length buffer);
                   m_timestamp := JString (now_iso w);
                   m_mime_type := JString (getMimeType filePath) |} in
              saveMerkleTree w
                (set_merkleTree
                   (ClientMerkle.addOrUpdateFile relPath metadata (now_iso w) (merkleTree c)) c)
            else c
        | _, _ => c
        end in
      queueUpload filePath relPath w c1
  else
    match eventType with
    | Unlink => handleLocalDeletion relPath w c
    | _ => c
    end.

Definition markAsDownloading (relPath : string) (c : Client) : Client :=
  mkClient (fs c) (treeFile c) (uploadQueue c) (isProcessing c)
           ({[relPath]} ∪ downloadingFiles c)
           (recentlyDownloaded c) (merkleTree c) (timers c) (requests c) (lastSyncAt c).

Definition markDownloadComplete (relPath : string) (fileHash : option string)
    (w : Ambient) (c : Client) : Client :=
  mkClient (fs c) (treeFile c) (uploadQueue c) (isProcessing c)
           (downloadingFiles c ∖ {[relPath]})
           (<[relPath := {| rd_hash := fileHash; rd_timestamp := now_ms w |}]>
              (recentlyDownloaded c))
           (merkleTree c)
           (timers c ++ [ExpireRecentDownloadIn relPath 10000])
           (requests c) (lastSyncAt c).

(** The callback that [markDownloadComplete] schedules. *)
Definition expireRecentDownload (relPath : string) (w : Ambient) (c : Client) : Client :=
  match recentlyDownloaded c !! relPath with
  | Some entry =>
      if bool_decide (10000 < now_ms w - rd_timestamp entry)%Z
      then mkClient (fs c) (treeFile c) (uploadQueue c) (isProcessing c)
                    (downloadingFiles c) (delete relPath (recentlyDownloaded c))
                    (merkleTree c) (timers c) (requests c) (lastSyncAt c)
      else c
  | None => c
  end.

End WithPlatform.
End FileWatcher.

(** ** client/lib/sync.js *)

Module Sync.
Import FileWatcher.

(** The result of an awaited request. *)
Inductive Outcome (A : Type) : Type :=
| Throws
| Returns (a : A).
Arguments Throws {A}.
Arguments Returns {A} a.

(** [api.downloadFile(id, localPath)]: the bytes the server sends for a
    file id, written to [localPath], unless the request fails. *)
Record Server : Type := mkServer {
  api_downloadFile : jsval → Outcome string
}.

(** The JavaScript run time around [performSync]: the client state, the
    cycles that were started and are suspended at
    [await api.getMerkleTreeDifferences(...)] (each with the snapshot it
    sent), and whether [setInterval(performSync, ...)] is armed. *)
Record Runtime : Type := mkRuntime {
  client : Client;
  awaitingDiff : list TreeJSON;
  intervalArmed : bool
}.

Section WithPlatform.
Context `{Crypto} `{PathLib} `{Config}.

Definition write_file (localPath content : string) (c : Client) : Client :=
  mkClient (<[localPath := content]> (fs c)) (treeFile c) (uploadQueue c) (isProcessing c)
           (downloadingFiles c) (recentlyDownloaded c) (merkleTree c) (timers c)
           (requests c) (lastSyncAt c).

Definition remove_file (localPath : string) (c : Client) : Client :=
  mkClient (delete localPath (fs c)) (treeFile c) (uploadQueue c) (isProcessing c)
           (downloadingFiles c) (recentlyDownloaded c) (merkleTree c) (timers c)
           (requests c) (lastSyncAt c).

Definition downloadFileFromServer (fileMetadata : FileData) (srv : Server) (w : Ambient)
    (c : Client) : Client :=
  let localPath := path_join WATCH_DIRECTORY (file_path fileMetadata) in
  let relPath := path_relative WATCH_DIRECTORY localPath in
  if bool_decide (is_Some (fs c !! localPath))
     && bool_decide (calculateFileHash (fs c) localPath = Some (hash fileMetadata))
  then c
  else
    let c1 := markAsDownloading relPath c in
    if truthy (file_id fileMetadata) then
      match api_downloadFile srv (file_id fileMetadata) with
      | Returns content =>
          let c2 := write_file localPath content
                      (send (DownloadFile (file_id fileMetadata) localPath) c1) in
          let metadata :=
            {| m_file_path := None;
               m_filename := filename fileMetadata;
               m_local_url := JString localPath;
               m_s3_url := s3_url fileMetadata;
               m_hash := hash fileMetadata;
               m_size := size fileMetadata;
               m_timestamp := JUndefined;
               m_mime_type := mime_type fileMetadata |} in
          let c3 := set_merkleTree
                      (ClientMerkle.addOrUpdateFile relPath metadata (now_iso w)
                         (merkleTree c2)) c2 in
          markDownloadComplete relPath (Some (hash fileMetadata)) w c3
      | Throws =>
          (* catch: clean up on error *)
          markDownloadComplete relPath None w
            (send (DownloadFile (file_id fileMetadata) localPath) c1)
      end
    else c1.

Definition handleServerDeletion (fileMetadata : FileData) (c : Client) : Client :=
  let localPath := path_join WATCH_DIRECTORY (file_path fileMetadata) in
  let relPath := path_relative WATCH_DIRECTORY localPath in
  let c1 := if bool_decide (is_Some (fs c !! localPath))
            then remove_file localPath c else c in
  set_merkleTree (ClientMerkle.removeFile relPath (merkleTree c1)).2 c1.

Definition set_lastSyncAt (t : string) (c : Client) : Client :=
  mkClient (fs c) (treeFile c) (uploadQueue c) (isProcessing c) (downloadingFiles c)
           (recentlyDownloaded c) (merkleTree c) (timers c) (requests c) (Some t).

(** [performSync] from the answer of the server on: [Returns None] is an
    answer without [differences]. *)
Definition performSync_continue (result : Outcome (option Differences)) (srv : Server)
    (w : Ambient) (c : Client) : Client :=
  match result with
  | Throws => c
  | Returns None => c
  | Returns (Some d) =>
      let c' :=
        if bool_decide (0 < length (added d))%nat
           || bool_decide (0 < length (modified d))%nat
           || bool_decide (0 < length (deleted d))%nat
        then
          let filesToDownload := (added d ++ modified d)%list in
          let c1 := foldl (λ c file,
                             if truthy (s3_url file) && truthy (file_id file)
                             then downloadFileFromServer file srv w c
                             else c) c filesToDownload in
          let c2 := foldl (λ c file, handleServerDeletion file c) c1 (deleted d) in
          saveMerkleTree w c2
        else c in
      set_lastSyncAt (now_iso w) c'
  end.

(** A call of [performSync]: it runs up to its first [await], where the
    request for the differences has been sent, and is suspended. *)
Definition performSync_call (w : Ambient) (r : Runtime) : Runtime :=
  let snapshot := ClientMerkle.toJSON (now_iso w) (merkleTree (client r)) in
  mkRuntime (send (GetMerkleTreeDifferences DEVICE_ID snapshot) (client r))
            (awaitingDiff r ++ [snapshot])
            (intervalArmed r).

(** The answer for the [i]-th suspended cycle arrives: that cycle runs to
    its end. *)
Definition performSync_resume (i : nat) (result : Outcome (option Differences))
    (srv : Server) (w : Ambient) (r : Runtime) : Runtime :=
  match awaitingDiff r !! i with
  | Some _ =>
      mkRuntime (performSync_continue result srv w (client r))
                (base.delete i (awaitingDiff r))
                (intervalArmed r)
  | None => r
  end.

Definition startPeriodicSync (w : Ambient) (r : Runtime) : Runtime :=
  let r1 := performSync_call w r in
  mkRuntime (client r1) (awaitingDiff r1) true.

(** The interval timer fires. *)
Definition interval_fires (w : Ambient) (r : Runtime) : Runtime :=
  if intervalArmed r then performSync_call w r else r.

(** The number of sync cycles that are active. *)
Definition active_cycles (r : Runtime) : nat := length (awaitingDiff r).

End WithPlatform.
End Sync.

(** ** client/lib/file-watcher.js: the drain of the upload queue *)

(** [path.dirname] *)
Class PathDir := { path_dirname : string → string }.

Module UploadScheduler.
Import FileWatcher Sync.

(** A call of [api.uploadFile(fullPath, remotePath)]. *)
Record UploadRequest : Type := mkUploadRequest {
  up_fullPath : string;
  up_remotePath : string
}.

(** [api.uploadFile]: it throws or returns; of the result the drain reads
    [result.file && result.file.s3Url] only. *)
Record UploadApi : Type := mkUploadApi {
  api_uploadFile : string → string → Outcome jsval
}.

Section WithPlatform.
Context `{Crypto} `{PathLib} `{PathDir} `{Config}.

Definition set_isProcessing (b : bool) (c : Client) : Client :=
  mkClient (fs c) (treeFile c) (uploadQueue c) b (downloadingFiles c)
           (recentlyDownloaded c) (merkleTree c) (timers c) (requests c) (lastSyncAt c).

Definition clear_uploadQueue (c : Client) : Client :=
  mkClient (fs c) (treeFile c) [] (isProcessing c) (downloadingFiles c)
           (recentlyDownloaded c) (merkleTree c) (timers c) (requests c) (lastSyncAt c).

(** The test at the head of the loop body: the file is gone, or it is what
    a recent download wrote ([continue] in both cases). *)
Definition skips (c : Client) (relPath : string) (fileInfo : QueueItem) : bool :=
  negb (bool_decide (is_Some (fs c !! fullPath fileInfo)))
  || match recentlyDownloaded c !! relPath with
     | Some recentDownload =>
         bool_decide (calculateFileHash (fs c) (fullPath fileInfo) = rd_hash recentDownload)
     | None => false
     end.

Definition upload_request (relPath : string) (fileInfo : QueueItem) : UploadRequest :=
  let remotePath := path_dirname relPath in
  {| up_fullPath := fullPath fileInfo;
     up_remotePath := if String.eqb remotePath "." then "/" else remotePath |}.

(** The body of the [for] loop of [processUploadQueue], with the uploads
    requested so far. A failed upload is caught and logged; so is a failed
    update of the server tree. *)
Definition process_item (api : UploadApi) (w : Ambient)
    (acc : Client * list UploadRequest) (entry : string * QueueItem)
    : Client * list UploadRequest :=
  let c := acc.1 in
  let relPath := entry.1 in
  let fileInfo := entry.2 in
  if skips c relPath fileInfo then acc
  else
    let request := upload_request relPath fileInfo in
    match api_uploadFile api (up_fullPath request) (up_remotePath request) with
    | Throws => (c, (acc.2 ++ [request])%list)
    | Returns s3Url =>
        let c1 :=
          match s3Url with
          | JString url =>
              if truthy s3Url
              then saveMerkleTree w
                     (set_merkleTree
                        (ClientMerkle.updateS3Url relPath url (now_iso w) (merkleTree c)).2 c)
              else c
          | _ => c
          end in
        (send (UpdateMerkleTree DEVICE_ID (ClientMerkle.toJSON (now_iso w) (merkleTree c1))) c1,
         (acc.2 ++ [request])%list)
    end.

(** [processUploadQueue], run to its end without another handler in
    between: the state afterwards and the uploads requested, in order. *)
Definition processUploadQueue (api : UploadApi) (w : Ambient) (c : Client)
    : Client * list UploadRequest :=
  if isProcessing c || bool_decide (length (uploadQueue c) = 0%nat) then (c, [])
  else
    let files := uploadQueue c in
    let c1 := clear_uploadQueue (set_isProcessing true c) in
    let done := foldl (process_item api w) (c1, []) files in
    (set_isProcessing false done.1, done.2).

(** [loadMerkleTree]: the tree file, when there is one, replaces the tree. *)
Definition loadMerkleTree (w : Ambient) (c : Client) : Client :=
  match treeFile c with
  | Some treeData =>
      set_merkleTree (ClientMerkle.fromJSON treeData (now_iso w) (merkleTree c)) c
  | None => c
  end.

End WithPlatform.
End UploadScheduler.

(** ** routes/merkle.js: the stored trees *)

Module MerkleRoutes.
Import ServerMerkle.

(** A row of [merkle_trees] with its key columns. *)
Record StoredTree : Type := mkStoredTree {
  st_id : string;
  st_user_id : string;
  st_device_id : string;
  st_row : TreeRow;
  st_updated_at : Z
}.

Definition is_for (userId deviceId : string) (r : StoredTree) : bool :=
  String.eqb (st_user_id r) userId && String.eqb (st_device_id r) deviceId.

(** [SELECT * FROM merkle_trees WHERE user_id = $1 AND device_id = $2] *)
Definition select_tree (userId deviceId : string) (table : list StoredTree)
    : list StoredTree :=
  filter (λ r, is_for userId deviceId r = true) table.

(** The [tree] of the answer of [POST /update]. *)
Record UpdateResponse : Type := mkUpdateResponse {
  ur_id : string;
  ur_deviceId : string;
  ur_rootHash : option string;
  ur_version : Z;
  ur_updatedAt : Z
}.

Definition response_of (r : StoredTree) : UpdateResponse :=
  {| ur_id := st_id r; ur_deviceId := st_device_id r;
     ur_rootHash := root_hash (st_row r); ur_version := version (st_row r);
     ur_updatedAt := st_updated_at r |}.

(** [router.post('/update')], after validation: [UPDATE ... SET version =
    version + 1] on the rows of (user, device) when there is one, [INSERT]
    otherwise ([version] defaults to 1); the answer is made of the first row
    returned. [new_id] is the id the database gives an inserted row, [now]
    its clock. The sum is the mathematical one: the column is a 32-bit
    [INTEGER], which 2^31 updates of one tree would exceed. *)
Definition post_update (userId deviceId : string) (treeData : TreeJSON)
    (new_id : string) (now : Z) (table : list StoredTree)
    : list StoredTree * option UpdateResponse :=
  match select_tree userId deviceId table with
  | _ :: _ =>
      let table' :=
        (λ r, if is_for userId deviceId r
              then {| st_id := st_id r; st_user_id := st_user_id r;
                      st_device_id := st_device_id r;
                      st_row := {| root_hash := rootHash treeData;
                                   tree_data := treeData;
                                   version := version (st_row r) + 1 |};
                      st_updated_at := now |}
              else r) <$> table in
      (table', response_of <$> head (select_tree userId deviceId table'))
  | [] =>
      let r := {| st_id := new_id; st_user_id := userId; st_device_id := deviceId;
                  st_row := {| root_hash := rootHash treeData;
                               tree_data := treeData;
                               version := 1 |};
                  st_updated_at := now |} in
      ((table ++ [r])%list, Some (response_of r))
  end.




End MerkleRoutes.

(** ** routes/files.js *)

Module FilesRoutes.
Import Sync.

(** A row of [files]. *)
Record FileRow : Type := mkFileRow {
  f_id : string;
  f_user_id : string;
  f_filename : string;
  f_file_path : string;
  f_file_size : Z;
  f_file_hash : string;
  f_mime_type : string;
  f_minio_key : string;
  f_status : string;
  f_local_url : jsval;
  f_upload_status : string;
  f_created_at : Z
}.

(** The table and the bucket. *)
Record Store : Type := mkStore {
  rows : list FileRow;
  objects : gmap string string
}.

(** How the object store answers during a request. *)
Record Minio : Type := mkMinio {
  putObject_ok : bool;
  removeObject_ok : bool;
  presignedGetObject : string → Outcome string
}.

(** What a request gets from outside: [uuidv4()], the id the database
    gives an inserted row, and its clock. *)
Record Fresh : Type := mkFresh {
  uuid : string;
  row_id : string;
  db_now : Z
}.

(** [req.file] of multer. *)
Record UploadedFile : Type := mkUploadedFile {
  originalname : string;
  buffer : string;
  mimetype : string
}.

Record FileInfo : Type := mkFileInfo {
  fi_id : string;
  fi_filename : string;
  fi_filePath : string;
  fi_fileSize : Z;
  fi_fileHash : string;
  fi_mimeType : string;
  fi_localUrl : jsval;
  fi_s3Url : string;
  fi_createdAt : Z
}.

Inductive UploadResponse : Type :=
| NoFileUploaded400
| AlreadyExists200 (file : FileInfo)
| Uploaded201 (file : FileInfo)
| UploadError.

Inductive DeleteResponse : Type :=
| FileNotFound404
| Deleted200 (id : string)
| DeleteError.

Section WithPlatform.
Context `{Crypto} `{PathLib}.

Definition calculateFileHash (buffer : string) : string := sha256_hex buffer.

Definition generatePermanentMinioKey (userId filename fileId : string) : string :=
  "users/" +:+ userId +:+ "/files/" +:+ fileId +:+ "/" +:+ filename.

(** [.replace(/\\/g, '/')] *)
Fixpoint backslashes_to_slashes (s : string) : string :=
  match s with
  | EmptyString => EmptyString
  | String a s' =>
      String (if Ascii.eqb a (Ascii.ascii_of_nat 92) then Ascii.ascii_of_nat 47 else a)
             (backslashes_to_slashes s')
  end.

Definition is_active_with_hash (userId fileHash : string) (r : FileRow) : bool :=
  String.eqb (f_user_id r) userId && String.eqb (f_file_hash r) fileHash
  && String.eqb (f_status r) "active".


Definition set_local_url (id : string) (localUrl : jsval) (r : FileRow) : FileRow :=
  if String.eqb (f_id r) id
  then mkFileRow (f_id r) (f_user_id r) (f_filename r) (f_file_path r) (f_file_size r)
                 (f_file_hash r) (f_mime_type r) (f_minio_key r) (f_status r) localUrl
                 (f_upload_status r) (f_created_at r)
  else r.

Definition set_deleted (id : string) (r : FileRow) : FileRow :=
  if String.eqb (f_id r) id
  then mkFileRow (f_id r) (f_user_id r) (f_filename r) (f_file_path r) (f_file_size r)
                 (f_file_hash r) (f_mime_type r) (f_minio_key r) "deleted" (f_local_url r)
                 (f_upload_status r) (f_created_at r)
  else r.

Definition file_info (r : FileRow) (url : string) : FileInfo :=
  {| fi_id := f_id r; fi_filename := f_filename r; fi_filePath := f_file_path r;
     fi_fileSize := f_file_size r; fi_fileHash := f_file_hash r;
     fi_mimeType := f_mime_type r; fi_localUrl := f_local_url r;
     fi_s3Url := url; fi_createdAt := f_created_at r |}.

(** [router.post('/upload')]: the store afterwards and the answer. *)
Definition post_upload (userId : string) (file : option UploadedFile)
    (filePath : option string) (localUrl : jsval) (m : Minio) (fresh : Fresh)
    (st : Store) : Store * UploadResponse :=
  match file with
  | None => (st, NoFileUploaded400)
  | Some f =>
      let fileHash := calculateFileHash (buffer f) in
      let fullPath :=
        backslashes_to_slashes (path_join (default "/" filePath) (originalname f)) in
      match filter (λ r, is_active_with_hash userId fileHash r = true) (rows st) with
      | fileRecord :: _ =>
          let change := truthy localUrl && bool_decide (f_local_url fileRecord ≠ localUrl) in
          let st' := if change
                     then mkStore (set_local_url (f_id fileRecord) localUrl <$> rows st)
                                  (objects st)
                     else st in
          let fileRecord' := if change then set_local_url (f_id fileRecord) localUrl fileRecord
                             else fileRecord in
          match presignedGetObject m (f_minio_key fileRecord') with
          | Returns url => (st', AlreadyExists200 (file_info fileRecord' url))
          | Throws => (st', UploadError)
          end
      | [] =>
          let minioKey := generatePermanentMinioKey userId (originalname f) (uuid fresh) in
          if putObject_ok m then
            let r := {| f_id := row_id fresh; f_user_id := userId;
                        f_filename := originalname f; f_file_path := fullPath;
                        f_file_size := Z.of_nat (String.length (buffer f));
                        f_file_hash := fileHash; f_mime_type := mimetype f;
                        f_minio_key := minioKey; f_status := "active";
                        f_local_url := match localUrl with JUndefined => JNull | v => v end;
                        f_upload_status := "completed";
                        f_created_at := db_now fresh |} in
            let st' := mkStore (rows st ++ [r])%list (<[minioKey := buffer f]> (objects st)) in
            match presignedGetObject m minioKey with
            | Returns url => (st', Uploaded201 (file_info r url))
            | Throws => (st', UploadError)
            end
          else (st, UploadError)
      end
  end.

(** [router.delete('/hash/:fileHash')]: a failure of the object store is
    caught and the row is marked all the same. *)
Definition delete_by_hash (userId fileHash : string) (m : Minio) (st : Store)
    : Store * DeleteResponse :=
  match filter (λ r, is_active_with_hash userId fileHash r = true) (rows st) with
  | [] => (st, FileNotFound404)
  | file :: _ =>
      let objects' := if removeObject_ok m then delete (f_minio_key file) (objects st)
                      else objects st in
      (mkStore (set_deleted (f_id file) <$> rows st) objects', Deleted200 (f_id file))
  end.


End WithPlatform.
End FilesRoutes.

(** ** middleware/errorHandler.js *)

Module ErrorHandler.

Record AppError : Type := mkAppError {
  isJoi : bool;
  details : list string;
  code : jsval;
  message : string
}.

Inductive Body : Type :=
| ValidationError (details : list string)
| ErrorOnly (error : string)
| InternalServerError (message : option string).

Record Response : Type := mkResponse {
  status : Z;
  body : Body
}.

(** [errorHandler]; [node_env] is [process.env.NODE_ENV]. *)
Definition errorHandler (node_env : jsval) (err : AppError) : Response :=
  if isJoi err then {| status := 400; body := ValidationError (details err) |}
  else if truthy (code err) then
    if bool_decide (code err = JString "23505")
    then {| status := 409; body := ErrorOnly "Resource already exists" |}
    else if bool_decide (code err = JString "23503")
    then {| status := 400; body := ErrorOnly "Invalid reference" |}
    else {| status := 500; body := ErrorOnly "Database error" |}
  else {| status := 500;
          body := InternalServerError
                    (if bool_decide (node_env = JString "development")
                     then Some (message err) else None) |}.

End ErrorHandler.

(** ** A concrete platform, to run the definitions on concrete inputs *)

(** SHA-256 (FIPS 180-4) on byte strings, with the digest in lower-case
    hexadecimal, as [crypto.createHash('sha256')...digest('hex')] gives it. *)
Module Sha256.
Local Open Scope Z_scope.

Definition w32 (x : Z) : Z := x mod 2 ^ 32.
Definition rotr (n x : Z) : Z := Z.lor (Z.shiftr x n) (w32 (Z.shiftl x (32 - n))).
Definition Ch (x y z : Z) : Z := Z.lxor (Z.land x y) (Z.land (Z.lnot x) z).
Definition Maj (x y z : Z) : Z :=
  Z.lxor (Z.lxor (Z.land x y) (Z.land x z)) (Z.land y z).
Definition Sigma0 (x : Z) : Z := Z.lxor (Z.lxor (rotr 2 x) (rotr 13 x)) (rotr 22 x).
Definition Sigma1 (x : Z) : Z := Z.lxor (Z.lxor (rotr 6 x) (rotr 11 x)) (rotr 25 x).
Definition sigma0 (x : Z) : Z := Z.lxor (Z.lxor (rotr 7 x) (rotr 18 x)) (Z.shiftr x 3).
Definition sigma1 (x : Z) : Z := Z.lxor (Z.lxor (rotr 17 x) (rotr 19 x)) (Z.shiftr x 10).

(** The first sixty-four primes. *)
Definition primes : list Z :=
  [ 2; 3; 5; 7; 11; 13; 17; 19; 23; 29; 31; 37; 41; 43; 47; 53; 59; 61; 67; 71; 73; 79;
    83; 89; 97; 101; 103; 107; 109; 113; 127; 131; 137; 139; 149; 151; 157; 163; 167;
    173; 179; 181; 191; 193; 197; 199; 211; 223; 227; 229; 233; 239; 241; 251; 257; 263;
    269; 271; 277; 281; 283; 293; 307; 311 ].

(** Integer cube root, found bit by bit from [2 ^ bits] down. *)
Fixpoint cbrt_bits (bits : nat) (n r : Z) : Z :=
  match bits with
  | O => r
  | S bits' =>
      let r' := r + 2 ^ Z.of_nat bits' in
      cbrt_bits bits' n (if Z.leb (r' * r' * r') n then r' else r)
  end.

(** The round constants: the first 32 bits of the fractional part of the
    cube root of each prime. *)
Definition K : list Z := (λ p, w32 (cbrt_bits 40 (p * 2 ^ 96) 0)) <$> primes.

(** The initial hash value: the same of the square roots of the first eight
    primes. *)
Definition H0 : list Z := (λ p, w32 (Z.sqrt (p * 2 ^ 64))) <$> take 8 primes.

Definition bytes_of_string (s : string) : list Z :=
  (λ a, Z.of_N (Ascii.N_of_ascii a)) <$> String.list_ascii_of_string s.

(** [n] as [k] bytes, most significant first. *)
Fixpoint be_bytes (k : nat) (n : Z) : list Z :=
  match k with
  | O => []
  | S k' => (be_bytes k' (Z.shiftr n 8) ++ [Z.land n 255])%list
  end.

Definition pad (msg : list Z) : list Z :=
  let len := Z.of_nat (length msg) in
  let zeros := Z.to_nat ((55 - len) mod 64) in
  (msg ++ [128] ++ replicate zeros 0 ++ be_bytes 8 (8 * len))%list.

(** Big-endian 32-bit words of a byte list. *)
Fixpoint words (fuel : nat) (bs : list Z) : list Z :=
  match fuel, bs with
  | S fuel', a :: b :: c :: d :: rest =>
      (Z.shiftl a 24 + Z.shiftl b 16 + Z.shiftl c 8 + d) :: words fuel' rest
  | _, _ => []
  end.

(** The message schedule, from a window of the sixteen latest words. *)
Fixpoint schedule (n : nat) (window : list Z) : list Z :=
  match n, window with
  | S n', w0 :: rest =>
      let next := w32 (sigma1 (nth 13 rest 0) + nth 8 rest 0 + sigma0 (nth 0 rest 0) + w0) in
      w0 :: schedule n' (rest ++ [next])%list
  | _, _ => []
  end.

Definition round (st : list Z) (kw : Z * Z) : list Z :=
  match st with
  | [a; b; c; d; e; f; g; h] =>
      let t1 := h + Sigma1 e + Ch e f g + kw.1 + kw.2 in
      let t2 := Sigma0 a + Maj a b c in
      [w32 (t1 + t2); a; b; c; w32 (d + t1); e; f; g]
  | _ => st
  end.

Definition compress (hs : list Z) (block : list Z) : list Z :=
  let ws := schedule 64 block in
  let st := foldl round hs (zip K ws) in
  zip_with (λ x y, w32 (x + y)) hs st.

Fixpoint blocks (fuel : nat) (ws : list Z) : list (list Z) :=
  match fuel, ws with
  | S fuel', _ :: _ => take 16 ws :: blocks fuel' (drop 16 ws)
  | _, _ => []
  end.

Definition hex_digit (n : Z) : Ascii.ascii :=
  Ascii.ascii_of_N (Z.to_N (if Z.ltb n 10 then 48 + n else 87 + n)).

Fixpoint hex (k : nat) (n : Z) : string :=
  match k with
  | O => EmptyString
  | S k' => hex k' (Z.shiftr n 4) +:+ String (hex_digit (Z.land n 15)) EmptyString
  end.

Definition digest_hex (s : string) : string :=
  let bs := pad (bytes_of_string s) in
  let ws := words (length bs) bs in
  let hs := foldl compress H0 (blocks (length ws) ws) in
  foldr (λ h acc, hex 8 h +:+ acc) EmptyString hs.

End Sha256.

(** POSIX paths without [.] or [..] segments, enough for the examples. *)
Module Posix.

Definition slash : Ascii.ascii := Ascii.ascii_of_nat 47.
Definition dot : Ascii.ascii := Ascii.ascii_of_nat 46.

Fixpoint after_last_slash (s acc : string) : string :=
  match s with
  | EmptyString => acc
  | String a s' =>
      if Ascii.eqb a slash then after_last_slash s' s' else after_last_slash s' acc
  end.

Definition basename (p : string) : string := after_last_slash p p.

Fixpoint from_last_dot (s : string) (acc : string) : string :=
  match s with
  | EmptyString => acc
  | String a s' =>
      if Ascii.eqb a dot then from_last_dot s' s else from_last_dot s' acc
  end.

Definition extname (p : string) : string :=
  match basename p with
  | EmptyString => EmptyString
  | String _ tail => from_last_dot tail EmptyString
  end.

Definition join (a b : string) : string := a +:+ "/" +:+ b.

Definition relative (from to : string) : string :=
  let dir := from +:+ "/" in
  if String.prefix dir to
  then String.substring (String.length dir) (String.length to - String.length dir) to
  else to.

Fixpoint before_last_slash (s acc cur : string) : string :=
  match s with
  | EmptyString => acc
  | String a s' =>
      if Ascii.eqb a slash
      then before_last_slash s' cur (cur +:+ String a EmptyString)
      else before_last_slash s' acc (cur +:+ String a EmptyString)
  end.

(** The directory of a relative path, [.] when it has no slash. *)
Definition dirname (p : string) : string :=
  if bool_decide (is_Some (String.index 0 "/" p))
  then before_last_slash p EmptyString EmptyString
  else ".".

End Posix.

#[local] Instance node_crypto : Crypto := {| sha256_hex := Sha256.digest_hex |}.

#[local] Instance posix_paths : PathLib :=
  {| path_relative := Posix.relative;
     path_basename := Posix.basename;
     path_join := Posix.join;
     path_extname := Posix.extname |}.

#[local] Instance posix_dirname : PathDir :=
  {| path_dirname := Posix.dirname |}.

#[local] Instance example_config : Config :=
  {| WATCH_DIRECTORY := "/home/u/sync-folder";
     DEVICE_ID := "client-1";
     SYNC_INTERVAL := 30000 |}.

(** ** Vocabulary of the properties *)

Section Vocabulary.
Context `{Crypto}.
Import ClientMerkle.

(** [addOrUpdateFile] for each entry in turn; the [i]-th call reads the
    time [clock i]. *)
Fixpoint insertAll (clock : nat → string) (i : nat) (entries : list (string * Metadata))
    (t : MerkleTree) : MerkleTree :=
  match entries with
  | [] => t
  | (filePath, metadata) :: rest =>
      insertAll clock (S i) rest (addOrUpdateFile filePath metadata (clock i) t)
  end.

(** [rebuildTree] on the hashes alone. *)
Fixpoint hash_pair_up (hs : list string) : list string :=
  match hs with
  | l :: r :: rest => sha256_hex (l +:+ r) :: hash_pair_up rest
  | [l] => [l]
  | [] => []
  end.

Fixpoint hash_levels (fuel : nat) (hs : list string) : list string :=
  match fuel with
  | O => hs
  | S fuel' => if decide (1 < length hs) then hash_levels fuel' (hash_pair_up hs) else hs
  end.

Definition root_of_hashes (hs : list string) : option string :=
  head (hash_levels (length hs) hs).

(** No two entries of the tree have the same path. *)
Definition paths_unique (t : MerkleTree) : Prop :=
  NoDup (file_path <$> getAllFiles t).

(** Each key once, and under each key a leaf whose data have the key as
    [file_path]. *)
Definition leaves_by_own_path (t : MerkleTree) : Prop :=
  NoDup (map_keys (leaves t))
  ∧ Forall (λ kn, ∃ d, data kn.2 = Some d ∧ file_path d = kn.1) (leaves t).

(** The trees that the code of the repository builds: [addOrUpdateFile] is
    called with metadata that have no [file_path] (sync.js, the examples) or
    the key as [file_path] (file-watcher.js). *)
Inductive built_by_callers : MerkleTree → Prop :=
| built_new : built_by_callers new_MerkleTree
| built_addOrUpdateFile filePath metadata now t :
    built_by_callers t →
    m_file_path metadata = None ∨ m_file_path metadata = Some filePath →
    built_by_callers (addOrUpdateFile filePath metadata now t)
| built_updateS3Url filePath s3Url now t :
    built_by_callers t →
    built_by_callers (updateS3Url filePath s3Url now t).2
| built_removeFile filePath t :
    built_by_callers t →
    built_by_callers (removeFile filePath t).2
| built_fromJSON json now t :
    built_by_callers (fromJSON json now t).

(** The files that [createFileNode] stores as they are: a timestamp, an
    [s3_url] that is [null] or a non-empty string, no [id]. *)
Definition stored_as_is (f : FileData) : Prop :=
  truthy (timestamp f) = true
  ∧ (s3_url f = JNull ∨ truthy (s3_url f) = true)
  ∧ file_id f = JUndefined.

(** A list of files as the path-keyed map it fills when paths are unique. *)
Definition keyed (l : list FileData) : list (string * FileData) :=
  (λ f, (file_path f, f)) <$> l.

(** The path of [f] is the path of no entry of [theirs]. *)
Definition absent_from (theirs : list FileData) (f : FileData) : Prop :=
  file_path f ∉ file_path <$> theirs.

(** [theirs] has an entry with the path of [f] and another hash or another
    timestamp. *)
Definition differs_in (theirs : list FileData) (f : FileData) : Prop :=
  Exists (λ g, file_path g = file_path f
               ∧ (hash f ≠ hash g ∨ timestamp f ≠ timestamp g)) theirs.

#[global] Instance absent_from_dec theirs f : Decision (absent_from theirs f).
Proof. unfold absent_from. apply _. Defined.

#[global] Instance differs_in_dec theirs f : Decision (differs_in theirs f).
Proof. unfold differs_in. apply _. Defined.

(** The map that both [fromJSON] fill, in the server's form. *)
Definition path_index (fs : list FileData) (m : list (string * FileData)) :=
  foldl (λ m file, map_set (file_path file) file m) m fs.

(** Each key once, and each file under its own path. *)
Definition keyed_by_own_path (m : list (string * FileData)) : Prop :=
  NoDup (map_keys m) ∧ Forall (λ kv, file_path kv.2 = kv.1) m.

(** The leaf that [createFileNode] makes of data [f]. *)
Definition leaf_of (f : FileData) : MerkleNode :=
  new_MerkleNode (Some f) None None.

(** Every file of the snapshot is stored as it is. *)
Definition snapshot_stored_as_is (json : TreeJSON) : Prop :=
  match files json with
  | Some fs => Forall stored_as_is fs
  | None => True
  end.

(** A snapshot that carries the files [fs]. *)
Definition snapshot_of (fs : list FileData) : TreeJSON :=
  {| rootHash := None; json_timestamp := JUndefined; files := Some fs |}.

End Vocabulary.

(** ** Concrete inputs *)

Module Examples.
Import ClientMerkle.

Definition t0 : string := "2024-05-01T10:00:00.000Z".
Definition t1 : string := "2024-05-01T10:00:01.000Z".
Definition t2 : string := "2024-05-01T10:00:02.000Z".

(** [notes.txt] holding the bytes [hello world]. *)
Definition notes_hash : string :=
  "b94d27b9934d3e08a52e52d7da7dabfac484efe37a5380ee9088f7ace2efcde9".

Definition notes_metadata : Metadata :=
  {| m_file_path := Some "notes.txt";
     m_filename := "notes.txt";
     m_local_url := JString "/home/u/sync-folder/notes.txt";
     m_s3_url := JNull;
     m_hash := notes_hash;
     m_size := 11;
     m_timestamp := JString t0;
     m_mime_type := JString "text/plain" |}.

(** The tree after the change detector has seen [notes.txt] ... *)
Definition tree_detected : MerkleTree :=
  addOrUpdateFile "notes.txt" notes_metadata t0 new_MerkleTree.

(** ... and after the upload scheduler has attached the blob reference. *)
Definition tree_uploaded : MerkleTree :=
  (updateS3Url "notes.txt" "http://minio:9000/files/notes.txt" t1 tree_detected).2.

(** Three entries and two orders of them. *)
Definition report_metadata : Metadata :=
  {| m_file_path := Some "docs/report.txt";
     m_filename := "report.txt";
     m_local_url := JString "/home/u/sync-folder/docs/report.txt";
     m_s3_url := JNull;
     m_hash := "ba7816bf8f01cfea414140de5dae2223b00361a396177a9cb410ff61f20015ad";
     m_size := 3;
     m_timestamp := JString t0;
     m_mime_type := JString "text/plain" |}.

Definition empty_metadata : Metadata :=
  {| m_file_path := Some "empty.bin";
     m_filename := "empty.bin";
     m_local_url := JString "/home/u/sync-folder/empty.bin";
     m_s3_url := JNull;
     m_hash := "e3b0c44298fc1c149afbf4c8996fb92427ae41e4649b934ca495991b7852b855";
     m_size := 0;
     m_timestamp := JString t0;
     m_mime_type := JString "application/octet-stream" |}.

Definition entries_one_order : list (string * Metadata) :=
  [ ("notes.txt", notes_metadata); ("docs/report.txt", report_metadata);
    ("empty.bin", empty_metadata) ].

Definition entries_other_order : list (string * Metadata) :=
  [ ("docs/report.txt", report_metadata); ("empty.bin", empty_metadata);
    ("notes.txt", notes_metadata) ].

(** An entry of a snapshot that has no [timestamp], which the schema of
    [POST /update] lets through. *)
Definition undated_file : FileData :=
  {| filename := "a.txt"; file_path := "a.txt";
     local_url := JNull; s3_url := JNull;
     hash := "file-hash-1"; size := 5;
     timestamp := JUndefined; mime_type := JNull;
     file_id := JUndefined |}.

(** An entry as the client sends it. *)
Definition notes_file : FileData :=
  {| filename := "notes.txt"; file_path := "notes.txt";
     local_url := JString "/home/u/sync-folder/notes.txt";
     s3_url := JString "http://minio:9000/files/notes.txt";
     hash := notes_hash; size := 11;
     timestamp := JString t1; mime_type := JString "text/plain";
     file_id := JUndefined |}.

Definition report_file : FileData :=
  {| filename := "report.txt"; file_path := "docs/report.txt";
     local_url := JNull; s3_url := JNull;
     hash := "ba7816bf8f01cfea414140de5dae2223b00361a396177a9cb410ff61f20015ad";
     size := 3;
     timestamp := JString t0; mime_type := JString "text/plain";
     file_id := JUndefined |}.

(** A server that knows no file. *)
Definition empty_backend : ServerMerkle.Backend :=
  {| ServerMerkle.select_active_by_hash := λ _ _, ServerMerkle.NoRows;
     ServerMerkle.generatePresignedUrl := λ _, None |}.

(** A client that has just started in an empty directory. *)
Definition initial_client : FileWatcher.Client :=
  {| FileWatcher.fs := ∅;
     FileWatcher.treeFile := None;
     FileWatcher.uploadQueue := [];
     FileWatcher.isProcessing := false;
     FileWatcher.downloadingFiles := ∅;
     FileWatcher.recentlyDownloaded := ∅;
     FileWatcher.merkleTree := new_MerkleTree;
     FileWatcher.timers := [];
     FileWatcher.requests := [];
     FileWatcher.lastSyncAt := None |}.

Definition clock0 : Ambient := {| now_ms := 1714557600000; now_iso := t0 |}.
Definition clock1 : Ambient := {| now_ms := 1714557601000; now_iso := t1 |}.

Definition notes_path : string := "/home/u/sync-folder/notes.txt".

(** [notes.txt] as the server lists it in a diff. *)
Definition served_notes : FileData :=
  {| filename := "notes.txt"; file_path := "notes.txt";
     local_url := JNull;
     s3_url := JString "http://minio:9000/files/notes.txt";
     hash := notes_hash; size := 11;
     timestamp := JString t0; mime_type := JString "text/plain";
     file_id := JString "7f9c2ba4" |}.

(** A server whose download of that file yields other bytes. *)
Definition other_bytes_server : Sync.Server :=
  {| Sync.api_downloadFile := λ _, Sync.Returns "hello w0rld" |}.

Definition failing_server : Sync.Server :=
  {| Sync.api_downloadFile := λ _, Sync.Throws |}.

Definition client_after_download : FileWatcher.Client :=
  Sync.downloadFileFromServer served_notes other_bytes_server clock0 initial_client.

(** The directory once the download has written [hello world], and once
    the user has then changed a byte. *)
Definition disk_downloaded : gmap string string := {[ notes_path := "hello world" ]}.
Definition disk_edited : gmap string string := {[ notes_path := "hello w0rld" ]}.

(** An older version of [notes.txt]. *)
Definition stale_notes_file : FileData :=
  {| filename := "notes.txt"; file_path := "notes.txt";
     local_url := JString "/home/u/sync-folder/notes.txt";
     s3_url := JNull;
     hash := "e3b0c44298fc1c149afbf4c8996fb92427ae41e4649b934ca495991b7852b855";
     size := 0;
     timestamp := JString t0; mime_type := JString "text/plain";
     file_id := JUndefined |}.

Definition tree_mine : MerkleTree :=
  fromJSON (snapshot_of [notes_file; report_file]) t2 new_MerkleTree.

Definition tree_theirs : MerkleTree :=
  fromJSON (snapshot_of [stale_notes_file; undated_file]) t2 new_MerkleTree.

Definition initial_runtime : Sync.Runtime :=
  {| Sync.client := initial_client; Sync.awaitingDiff := []; Sync.intervalArmed := false |}.

End Examples.

(** ** Further concrete inputs *)

Module MoreExamples.
Import Examples.

(** [notes.txt] as the tree holds it once the change detector has seen it. *)
Definition detected_notes : FileData :=
  {| filename := "notes.txt"; file_path := "notes.txt";
     local_url := JString "/home/u/sync-folder/notes.txt";
     s3_url := JNull;
     hash := notes_hash; size := 11;
     timestamp := JString t0; mime_type := JString "text/plain";
     file_id := JUndefined |}.

(** A client that tracks [notes.txt], which is in the directory. *)
Definition client_tracking_notes : FileWatcher.Client :=
  FileWatcher.set_merkleTree tree_detected
    (FileWatcher.set_fs disk_downloaded initial_client).

(** A server whose download of the file yields its bytes. *)
Definition notes_server : Sync.Server :=
  {| Sync.api_downloadFile := λ _, Sync.Returns "hello world" |}.

Definition accepting_uploads : UploadScheduler.UploadApi :=
  {| UploadScheduler.api_uploadFile :=
       λ _ _, Sync.Returns (JString "http://minio:9000/files/notes.txt") |}.

(** The client once the change detector has queued [notes.txt]. *)
Definition client_with_queued_notes : FileWatcher.Client :=
  FileWatcher.handleFileChange notes_path FileWatcher.Change clock0
    (FileWatcher.set_fs disk_downloaded initial_client).

(** An editor that saves twice within a second. *)
Definition two_saves : list (gmap string string * Ambient) :=
  [ (disk_downloaded, clock0); (disk_edited, clock1) ].


Definition hidden_path : string := "/home/u/sync-folder/.cache".

Definition working_minio : FilesRoutes.Minio :=
  {| FilesRoutes.putObject_ok := true;
     FilesRoutes.removeObject_ok := true;
     FilesRoutes.presignedGetObject := λ key, Sync.Returns ("http://minio:9000/" +:+ key) |}.

Definition minio_refusing_removal : FilesRoutes.Minio :=
  {| FilesRoutes.putObject_ok := true;
     FilesRoutes.removeObject_ok := false;
     FilesRoutes.presignedGetObject := λ key, Sync.Returns ("http://minio:9000/" +:+ key) |}.

Definition notes_upload : FilesRoutes.UploadedFile :=
  {| FilesRoutes.originalname := "notes.txt";
     FilesRoutes.buffer := "hello world";
     FilesRoutes.mimetype := "text/plain" |}.

(** The same bytes under another name. *)
Definition copy_upload : FilesRoutes.UploadedFile :=
  {| FilesRoutes.originalname := "copy.txt";
     FilesRoutes.buffer := "hello world";
     FilesRoutes.mimetype := "text/plain" |}.

Definition first_request : FilesRoutes.Fresh :=
  {| FilesRoutes.uuid := "0b6e4f1c"; FilesRoutes.row_id := "file-1";
     FilesRoutes.db_now := 1714557600000 |}.

Definition second_request : FilesRoutes.Fresh :=
  {| FilesRoutes.uuid := "5d2a9e77"; FilesRoutes.row_id := "file-2";
     FilesRoutes.db_now := 1714557601000 |}.

Definition empty_store : FilesRoutes.Store :=
  {| FilesRoutes.rows := []; FilesRoutes.objects := ∅ |}.

Definition notes_key : string := "users/user-1/files/0b6e4f1c/notes.txt".

Definition notes_row : FilesRoutes.FileRow :=
  {| FilesRoutes.f_id := "file-1"; FilesRoutes.f_user_id := "user-1";
     FilesRoutes.f_filename := "notes.txt"; FilesRoutes.f_file_path := "/docs/notes.txt";
     FilesRoutes.f_file_size := 11; FilesRoutes.f_file_hash := notes_hash;
     FilesRoutes.f_mime_type := "text/plain"; FilesRoutes.f_minio_key := notes_key;
     FilesRoutes.f_status := "active"; FilesRoutes.f_local_url := JNull;
     FilesRoutes.f_upload_status := "completed";
     FilesRoutes.f_created_at := 1714557600000 |}.

Definition store_with_notes : FilesRoutes.Store :=
  {| FilesRoutes.rows := [notes_row];
     FilesRoutes.objects := {[ notes_key := "hello world" ]} |}.

End MoreExamples.

(** ** Vocabulary of the further properties *)

(** The stored root is the one [rebuildTree] computes from the leaves. *)
Definition root_up_to_date `{Crypto} (t : ClientMerkle.MerkleTree) : Prop :=
  ClientMerkle.rebuildTree t = t.

Definition no_differences : Differences :=
  {| added := []; modified := []; deleted := [] |}.

(** At most one row for each (user, device). *)
Definition one_row_per_device (table : list MerkleRoutes.StoredTree) : Prop :=
  ∀ userId deviceId, (length (MerkleRoutes.select_tree userId deviceId table) ≤ 1)%nat.

(** At most one active row for each (user, content hash). *)
Definition one_active_row_per_hash (st : FilesRoutes.Store) : Prop :=
  ∀ userId fileHash,
    (length (filter (λ r, FilesRoutes.is_active_with_hash userId fileHash r = true)
               (FilesRoutes.rows st)) ≤ 1)%nat.

(** The client after a run of create or modify events for one file, each
    with the content of the directory when it is handled and the clock. *)
Definition after_events `{Crypto} `{PathLib} `{Config} (filePath : string)
    (events : list (gmap string string * Ambient)) (c : FileWatcher.Client)
    : FileWatcher.Client :=
  foldl (λ c e, FileWatcher.handleFileChange filePath FileWatcher.Change e.2
                  (FileWatcher.set_fs e.1 c)) c events.

(** What the body of the loop of the drain never touches. *)
Definition drain_frame (c c' : FileWatcher.Client) : Prop :=
  FileWatcher.fs c' = FileWatcher.fs c
  ∧ FileWatcher.recentlyDownloaded c' = FileWatcher.recentlyDownloaded c
  ∧ FileWatcher.downloadingFiles c' = FileWatcher.downloadingFiles c
  ∧ FileWatcher.uploadQueue c' = FileWatcher.uploadQueue c
  ∧ FileWatcher.isProcessing c' = FileWatcher.isProcessing c
  ∧ FileWatcher.timers c' = FileWatcher.timers c.

(** * Properties *)

(** ** The insertion-ordered map *)

Section JsMapFacts.
Context {V : Type}.
Implicit Types (k : string) (v : V) (m : list (string * V)).

Lemma map_get_None k m : map_get k m = None ↔ k ∉ map_keys m.
Proof.
  unfold map_keys. induction m as [|[k' v'] m IH]; simpl.
  - split; [intros _; apply not_elem_of_nil | done].
  - rewrite not_elem_of_cons. destruct (decide (k = k')) as [->|Hne].
    + split; [done | intros [? _]; done].
    + rewrite IH. tauto.
Qed.

Lemma map_get_Some_elem k v m : map_get k m = Some v → (k, v) ∈ m.
Proof.
  induction m as [|[k' v'] m IH]; simpl; [done|].
  destruct (decide (k = k')) as [->|Hne].
  - intros [= ->]. apply elem_of_cons; by left.
  - intros Hg. apply elem_of_cons; right; auto.
Qed.

Lemma map_get_elem_NoDup k v m :
  NoDup (map_keys m) → (k, v) ∈ m → map_get k m = Some v.
Proof.
  unfold map_keys. induction m as [|[k' v'] m IH]; simpl.
  - intros _ Hin. by apply elem_of_nil in Hin.
  - intros [Hnotin Hnd]%NoDup_cons [Heq|Hin]%elem_of_cons.
    + injection Heq as -> ->. by rewrite decide_True.
    + destruct (decide (k = k')) as [->|Hne]; [|by apply IH].
      exfalso. apply Hnotin. apply list_elem_of_fmap. by exists (k', v).
Qed.

Lemma map_has_true k m : map_has k m = true ↔ k ∈ map_keys m.
Proof.
  unfold map_has. rewrite bool_decide_eq_true.
  destruct (map_get k m) as [v|] eqn:Hg.
  - split; [intros _ | by eauto].
    destruct (decide (k ∈ map_keys m)) as [|Hn]; [done|].
    apply map_get_None in Hn. congruence.
  - split; [intros [? ?]; done|]. intros Hin.
    apply map_get_None in Hg. done.
Qed.

Lemma map_has_false k m : map_has k m = false ↔ k ∉ map_keys m.
Proof.
  rewrite <- map_has_true. destruct (map_has k m); split; congruence.
Qed.

Lemma map_set_new k v m : k ∉ map_keys m → map_set k v m = (m ++ [(k, v)])%list.
Proof.
  unfold map_keys. induction m as [|[k' v'] m IH]; simpl; [done|].
  intros [Hne Hnotin]%not_elem_of_cons.
  rewrite decide_False by done. by rewrite IH.
Qed.

Lemma map_set_keys_old k v m : k ∈ map_keys m → map_keys (map_set k v m) = map_keys m.
Proof.
  unfold map_keys. induction m as [|[k' v'] m IH]; simpl.
  - intros Hin. by apply elem_of_nil in Hin.
  - intros Hin. destruct (decide (k = k')) as [->|Hne]; simpl; [done|].
    f_equal. apply IH. apply elem_of_cons in Hin as [?|?]; done.
Qed.

Lemma map_get_set_eq k v m : map_get k (map_set k v m) = Some v.
Proof.
  induction m as [|[k' v'] m IH]; simpl.
  - by rewrite decide_True.
  - destruct (decide (k = k')) as [->|Hne]; simpl.
    + by rewrite decide_True.
    + by rewrite decide_False.
Qed.

Lemma map_get_set_ne k k' v m : k ≠ k' → map_get k' (map_set k v m) = map_get k' m.
Proof.
  intros Hne. induction m as [|[k0 v0] m IH]; simpl.
  - by rewrite decide_False.
  - destruct (decide (k = k0)) as [->|Hne0]; simpl.
    + by rewrite !decide_False.
    + destruct (decide (k' = k0)); [done | apply IH].
Qed.

Lemma map_set_NoDup k v m : NoDup (map_keys m) → NoDup (map_keys (map_set k v m)).
Proof.
  intros Hnd. destruct (decide (k ∈ map_keys m)) as [Hin|Hnotin].
  - by rewrite map_set_keys_old.
  - rewrite map_set_new by done. unfold map_keys in *. rewrite fmap_app. simpl.
    apply NoDup_app. split; [done|]. split.
    + intros x Hx ->%list_elem_of_singleton. done.
    + apply NoDup_singleton.
Qed.

Lemma map_set_Forall (Q : string * V → Prop) k v m :
  Forall Q m → Q (k, v) → Forall Q (map_set k v m).
Proof.
  intros Hall Hkv. induction Hall as [|[k' v'] m Hhead Hall IH]; simpl.
  - by repeat constructor.
  - destruct (decide (k = k')); constructor; auto.
Qed.

Lemma map_delete_sublist k m : map_delete k m `sublist_of` m.
Proof.
  induction m as [|[k' v'] m IH]; simpl; [done|].
  destruct (decide (k = k')).
  - by apply sublist_cons.
  - by apply sublist_skip.
Qed.

Lemma map_delete_Forall (Q : string * V → Prop) k m :
  Forall Q m → Forall Q (map_delete k m).
Proof.
  intros Hall. induction Hall as [|[k' v'] m Hhead Hall IH]; simpl; [done|].
  destruct (decide (k = k')); [done | by constructor].
Qed.

Lemma map_delete_NoDup k m : NoDup (map_keys m) → NoDup (map_keys (map_delete k m)).
Proof.
  unfold map_keys. intros Hnd.
  assert ((map_delete k m).*1 `sublist_of` m.*1) as Hsub
    by apply fmap_sublist, map_delete_sublist.
  exact (sublist_NoDup _ _ Hnd Hsub).
Qed.

(** Filling a map from a list that has each key once gives the list. *)
Lemma foldl_map_set_NoDup (key : V → string) (l : list V) m :
  NoDup (map_keys m ++ (key <$> l)) →
  foldl (λ acc x, map_set (key x) x acc) m l = (m ++ ((λ x, (key x, x)) <$> l))%list.
Proof.
  revert m. induction l as [|x l IH]; intros m Hnd; simpl.
  - by rewrite app_nil_r.
  - simpl in Hnd.
    assert (key x ∉ map_keys m) as Hnotin.
    { apply NoDup_app in Hnd as (_ & Hdisj & _). intros Hin.
      apply (Hdisj _ Hin). apply elem_of_cons; by left. }
    rewrite map_set_new by done. rewrite IH.
    + by rewrite <- app_assoc.
    + unfold map_keys in *. rewrite fmap_app. simpl. rewrite <- app_assoc. done.
Qed.

End JsMapFacts.

(** ** The client tree: [rebuildTree] and the root hash *)

Section MerkleFacts.
Context `{Crypto}.
Import ClientMerkle.

(** Induction on a list two elements at a time, as [pair_up] recurses. *)
Lemma list_pair_ind {A} (P : list A → Prop) :
  P [] → (∀ x, P [x]) → (∀ x y l, P l → P (x :: y :: l)) → ∀ l, P l.
Proof.
  intros Hnil Hone Hstep.
  assert (∀ l, P l ∧ ∀ x, P (x :: l)) as Hboth.
  { induction l as [|y l [IH1 IH2]]; split; auto. }
  intros l. apply Hboth.
Qed.

Lemma leaves_rebuildTree t : leaves (rebuildTree t) = leaves t.
Proof.
  unfold rebuildTree. destruct (map_values (leaves t)) as [|n [|n' l]]; done.
Qed.

Lemma pair_up_hashes (l : list MerkleNode) :
  node_hash <$> pair_up l = hash_pair_up (node_hash <$> l).
Proof.
  induction l as [| x | x y l IH] using list_pair_ind; [done..|].
  cbn [pair_up]. rewrite !fmap_cons. cbn [hash_pair_up]. by rewrite IH.
Qed.

Lemma pair_up_length (l : list MerkleNode) :
  length (pair_up l) = Nat.div2 (S (length l)).
Proof.
  induction l as [| x | x y l IH] using list_pair_ind; [done..|].
  cbn [pair_up length]. rewrite IH. done.
Qed.

Lemma div2_S_lt n : 1 < n → Nat.div2 (S n) < n.
Proof.
  intros Hn. rewrite Nat.div2_div. apply Nat.Div0.div_lt_upper_bound. lia.
Qed.

Lemma build_levels_hashes fuel (l : list MerkleNode) :
  node_hash <$> build_levels fuel l = hash_levels fuel (node_hash <$> l).
Proof.
  revert l. induction fuel as [|fuel IH]; intros l; simpl; [done|].
  rewrite length_fmap. destruct (decide (1 < length l)); [|done].
  by rewrite IH, pair_up_hashes.
Qed.

(** The loop of [rebuildTree] ends within [length leafNodes] passes, with
    one node left. *)
Lemma build_levels_terminates fuel (l : list MerkleNode) :
  l ≠ [] → (length l ≤ S fuel)%nat → length (build_levels fuel l) = 1.
Proof.
  revert l. induction fuel as [|fuel IH]; intros l Hne Hlen; simpl.
  - destruct l as [|x [|y l]]; simpl in *; [done | done | lia].
  - destruct (decide (1 < length l)) as [Hgt|Hle].
    + apply IH.
      * destruct l as [|x [|y l]]; simpl in *; [lia | lia | done].
      * rewrite pair_up_length. pose proof (div2_S_lt (length l) Hgt). lia.
    + destruct l as [|x [|y l]]; simpl in *; [done | done | lia].
Qed.

Lemma getRootHash_rebuildTree t :
  getRootHash (rebuildTree t) = root_of_hashes (node_hash <$> map_values (leaves t)).
Proof.
  unfold rebuildTree, getRootHash, root_of_hashes.
  destruct (map_values (leaves t)) as [|n [|n' l]] eqn:Hl; [done..|].
  cbn [root]. rewrite length_fmap, <- build_levels_hashes.
  by destruct (build_levels _ _).
Qed.

(** The hash a leaf gets when it is constructed. *)
Lemma new_leaf_hash d : node_hash (new_MerkleNode (Some d) None None) = sha256_hex "empty".
Proof. done. Qed.

Lemma addOrUpdateFile_new filePath metadata now t :
  filePath ∉ map_keys (leaves t) →
  ∃ node, node_hash node = sha256_hex "empty"
          ∧ leaves (addOrUpdateFile filePath metadata now t)
            = (leaves t ++ [(filePath, node)])%list.
Proof.
  intros Hnotin. unfold addOrUpdateFile.
  rewrite (proj2 (map_get_None _ _) Hnotin), leaves_rebuildTree.
  cbn [leaves]. unfold createFileNode. rewrite map_set_new by done.
  eexists. split; [|done]. done.
Qed.

Lemma insertAll_fresh_hashes clock i entries t :
  NoDup (map_keys (leaves t) ++ entries.*1) →
  node_hash <$> map_values (leaves (insertAll clock i entries t))
  = ((node_hash <$> map_values (leaves t))
     ++ replicate (length entries) (sha256_hex "empty"))%list.
Proof.
  revert i t. induction entries as [|[p m] entries IH]; intros i t Hnd; simpl.
  - by rewrite app_nil_r.
  - simpl in Hnd.
    assert (p ∉ map_keys (leaves t)) as Hnotin.
    { apply NoDup_app in Hnd as (_ & Hdisj & _). intros Hin.
      apply (Hdisj _ Hin). apply elem_of_cons; by left. }
    destruct (addOrUpdateFile_new p m (clock i) t Hnotin) as (node & Hh & Hl).
    rewrite IH.
    + rewrite Hl. unfold map_values. rewrite !fmap_app. simpl.
      rewrite Hh, <- app_assoc. done.
    + rewrite Hl. unfold map_keys. rewrite fmap_app. simpl.
      rewrite <- app_assoc. done.
Qed.

Lemma getRootHash_insertAll clock i entries t :
  getRootHash (insertAll clock i entries t)
  = match entries with
    | [] => getRootHash t
    | _ => root_of_hashes (node_hash <$> map_values (leaves (insertAll clock i entries t)))
    end.
Proof.
  revert i t. induction entries as [|[p m] entries IH]; intros i t; [done|].
  simpl. rewrite IH. destruct entries as [|e entries]; [|done].
  simpl. unfold addOrUpdateFile.
  destruct (map_get p (leaves t)); by rewrite getRootHash_rebuildTree, leaves_rebuildTree.
Qed.

Lemma leaves_by_own_path_unique t : leaves_by_own_path t → paths_unique t.
Proof.
  intros [Hnd Hall]. unfold paths_unique, getAllFiles, map_values.
  assert (file_path <$> omap data (leaves t).*2 = map_keys (leaves t)) as ->; [|done].
  unfold map_keys. induction Hall as [|[k n] l (d & Hd & Hk) Hall IH]; [done|].
  apply NoDup_cons in Hnd as [_ Hnd]. cbn in *. rewrite Hd. cbn.
  f_equal; [done | by apply IH].
Qed.

Lemma createFileNode_by_own_path filePath metadata now lv r :
  leaves_by_own_path (mkTree r lv) →
  leaves_by_own_path (mkTree r (createFileNode filePath metadata now lv)).
Proof.
  intros [Hnd Hall]. unfold createFileNode. split; cbn [leaves] in *.
  - by apply map_set_NoDup.
  - apply map_set_Forall; [done|]. eexists. split; done.
Qed.

(** Every tree that the callers build has each path once. *)
Lemma built_by_callers_by_own_path t : built_by_callers t → leaves_by_own_path t.
Proof.
  assert (∀ t, leaves_by_own_path (mkTree (root t) (leaves t)) → leaves_by_own_path t)
    as Hroot by (by intros [r lv]).
  assert (∀ t, leaves_by_own_path t → leaves_by_own_path (rebuildTree t)) as Hrebuild.
  { intros t0 [Hnd Hall]. split; by rewrite leaves_rebuildTree. }
  induction 1 as [| p m now t Ht IH Hpath | p url now t Ht IH | p t Ht IH | json now t].
  - split; constructor.
  - unfold addOrUpdateFile.
    destruct (map_get p (leaves t)) as [node|] eqn:Hget; apply Hrebuild.
    + destruct IH as [Hnd Hall]. split; cbn [leaves].
      * by apply map_set_NoDup.
      * apply map_set_Forall; [done|]. eexists. split; [done|].
        cbn [snd fst]. unfold spread_update. cbn [file_path].
        apply map_get_Some_elem in Hget.
        destruct (proj1 (Forall_forall _ _) Hall _ Hget) as (d & Hd & Hk).
        cbn [snd fst] in *. rewrite Hd.
        destruct Hpath as [-> | ->]; done.
    + by apply (createFileNode_by_own_path _ _ _ _ (root t)).
  - unfold updateS3Url.
    destruct (map_get p (leaves t)) as [node|] eqn:Hget; [|done].
    destruct (data node) as [d|] eqn:Hd; [|done].
    cbn [snd]. apply Hrebuild. destruct IH as [Hnd Hall]. split; cbn [leaves].
    + by apply map_set_NoDup.
    + apply map_set_Forall; [done|]. eexists. split; [done|].
      apply map_get_Some_elem in Hget.
      destruct (proj1 (Forall_forall _ _) Hall _ Hget) as (d' & Hd' & Hk).
      cbn [snd fst file_path] in *. congruence.
  - unfold removeFile. destruct (map_has p (leaves t)); [|done].
    cbn [snd]. apply Hrebuild. destruct IH as [Hnd Hall]. split; cbn [leaves].
    + by apply map_delete_NoDup.
    + by apply map_delete_Forall.
  - unfold fromJSON. apply Hrebuild.
    destruct (files json) as [fs|]; [|split; constructor].
    assert (∀ lv, leaves_by_own_path (mkTree (root t) lv) →
              leaves_by_own_path (mkTree (root t)
                (foldl (λ lv file, createFileNode (file_path file) (metadata_of_file file)
                                     now lv) lv fs))) as Hfold.
    { induction fs as [|f fs IHfs]; intros lv Hlv; [done|].
      cbn [foldl]. apply IHfs. by apply createFileNode_by_own_path. }
    apply Hfold. split; constructor.
Qed.

Lemma built_by_callers_paths_unique t : built_by_callers t → paths_unique t.
Proof. intros Ht. by apply leaves_by_own_path_unique, built_by_callers_by_own_path. Qed.

(** When a path comes twice, the second call updates the leaf and
    recomputes its hash to the content hash of the later entry: with the
    same path the two orders of two entries give two root hashes. *)
Lemma rootHash_repeated_path filePath m1 m2 clock :
  getRootHash (insertAll clock 0 [(filePath, m1); (filePath, m2)] new_MerkleTree)
  = Some (m_hash m2).
Proof.
  cbn [insertAll]. unfold addOrUpdateFile at 1. cbn.
  rewrite decide_True by done. cbn. by rewrite decide_True.
Qed.

(** C1. For every finite set of file entries, given as a list of
    (path, metadata) pairs with pairwise distinct paths, and every two
    orders [entries] and [entries'] in which they are inserted with
    [addOrUpdateFile] into a fresh [MerkleTree] (whatever the clock reads
    at each call), [getRootHash] afterwards returns the same value. *)
Theorem rootHash_insertion_order (entries entries' : list (string * Metadata))
    (clock clock' : nat → string) :
  NoDup entries.*1 →
  entries ≡ₚ entries' →
  getRootHash (insertAll clock' 0 entries' new_MerkleTree)
  = getRootHash (insertAll clock 0 entries new_MerkleTree).
Proof.
  intros Hnd Hperm.
  assert (NoDup entries'.*1) as Hnd'.
  { by rewrite <- Hperm. }
  rewrite !getRootHash_insertAll.
  rewrite !insertAll_fresh_hashes by done. simpl.
  rewrite <- (Permutation_length Hperm).
  destruct entries as [|e entries].
  - apply Permutation_nil_l in Hperm. by subst.
  - destruct entries' as [|e' entries']; [|done].
    by apply Permutation_nil_r in Hperm.
Qed.

End MerkleFacts.

(** ** What [updateS3Url] and a snapshot round trip do to the root hash *)

Section RootHashOfLeaves.
Context `{Crypto}.
Import ClientMerkle.

(** Apart from the root hash, [updateS3Url] touches the leaf of its path
    only, and there only [s3_url] and [timestamp]. *)
Lemma updateS3Url_frame filePath s3Url now t node d :
  map_get filePath (leaves t) = Some node →
  data node = Some d →
  let t' := (updateS3Url filePath s3Url now t).2 in
  (updateS3Url filePath s3Url now t).1 = true
  ∧ (∃ node', map_get filePath (leaves t') = Some node'
              ∧ data node' = Some
                  {| filename := filename d; file_path := file_path d;
                     local_url := local_url d; s3_url := JString s3Url;
                     hash := hash d; size := size d; timestamp := JString now;
                     mime_type := mime_type d; file_id := file_id d |})
  ∧ (∀ other, other ≠ filePath → map_get other (leaves t') = map_get other (leaves t))
  ∧ map_keys (leaves t') = map_keys (leaves t).
Proof.
  intros Hget Hdata. unfold updateS3Url. rewrite Hget, Hdata. cbn [fst snd].
  rewrite leaves_rebuildTree. cbn [leaves].
  split; [done|]. split; [|split].
  - eexists. split; [apply map_get_set_eq | done].
  - intros other Hne. by apply map_get_set_ne.
  - apply map_set_keys_old. apply dec_stable. intros Hn.
    apply map_get_None in Hn. congruence.
Qed.

(** A leaf that was only created carries the hash of the string [empty];
    [updateS3Url] recomputes it to the content hash, and the root hash of
    a one-file tree follows. *)
Lemma updateS3Url_root_hash_one_file filePath metadata s3Url now now' :
  let t := addOrUpdateFile filePath metadata now new_MerkleTree in
  getRootHash t = Some (sha256_hex "empty")
  ∧ getRootHash (updateS3Url filePath s3Url now' t).2 = Some (m_hash metadata).
Proof.
  split.
  - done.
  - unfold updateS3Url, addOrUpdateFile. cbn. rewrite decide_True by done.
    cbn. rewrite decide_True by done. done.
Qed.

(** A tree rebuilt from a snapshot has only created leaves. *)
Lemma fromJSON_one_file f now t :
  getRootHash (fromJSON (snapshot_of [f]) now t) = Some (sha256_hex "empty").
Proof. done. Qed.

End RootHashOfLeaves.

Example sha256_empty_string :
  sha256_hex EmptyString = "e3b0c44298fc1c149afbf4c8996fb92427ae41e4649b934ca495991b7852b855".
Proof. vm_compute. reflexivity. Qed.

Example sha256_abc :
  sha256_hex "abc" = "ba7816bf8f01cfea414140de5dae2223b00361a396177a9cb410ff61f20015ad".
Proof. vm_compute. reflexivity. Qed.

Example sha256_two_blocks :
  sha256_hex "abcdbcdecdefdefgefghfghighijhijkijkljklmklmnlmnomnopnopq"
  = "248d6a61d20638b8e5c026930c3e6039a33ce45964ff2167f6ecedd419db06c1".
Proof. vm_compute. reflexivity. Qed.

Example sha256_notes : sha256_hex "hello world" = Examples.notes_hash.
Proof. vm_compute. reflexivity. Qed.

(** C10, at [notes.txt] once detected: [updateS3Url] on a path of the tree
    changes [getRootHash], from the hash of the string [empty] to the content
    hash of the file. *)
Theorem updateS3Url_changes_root_hash :
  ClientMerkle.getRootHash Examples.tree_detected
  = Some "2e1cfa82b035c26cbbbdae632cea070514eb8b773f616aaeaf668e2f0be8f10d"
  ∧ ClientMerkle.getRootHash Examples.tree_uploaded = Some Examples.notes_hash
  ∧ ClientMerkle.getRootHash Examples.tree_uploaded
    ≠ ClientMerkle.getRootHash Examples.tree_detected.
Proof. vm_compute. split; [done|]. split; [done|]. intros [=]. Qed.

(** C7, at the tree of [notes.txt] once uploaded: a fresh tree filled by
    [fromJSON] from [toJSON] of that tree has another root hash. *)
Theorem snapshot_round_trip_changes_root_hash :
  ClientMerkle.getRootHash Examples.tree_uploaded = Some Examples.notes_hash
  ∧ ClientMerkle.getRootHash
      (ClientMerkle.fromJSON (ClientMerkle.toJSON Examples.t2 Examples.tree_uploaded)
         Examples.t2 ClientMerkle.new_MerkleTree)
    = Some "2e1cfa82b035c26cbbbdae632cea070514eb8b773f616aaeaf668e2f0be8f10d"
  ∧ ClientMerkle.getRootHash
      (ClientMerkle.fromJSON (ClientMerkle.toJSON Examples.t2 Examples.tree_uploaded)
         Examples.t2 ClientMerkle.new_MerkleTree)
    ≠ ClientMerkle.getRootHash Examples.tree_uploaded.
Proof. vm_compute. split; [done|]. split; [done|]. intros [=]. Qed.

(** ** The client diff *)

Section ClientDiff.
Context `{Crypto}.
Import ClientMerkle.

Lemma keyed_keys l : map_keys (keyed l) = file_path <$> l.
Proof. unfold map_keys, keyed. rewrite <- list_fmap_compose. done. Qed.

Lemma index_by_path_keyed l : NoDup (file_path <$> l) → index_by_path l = keyed l.
Proof.
  intros Hnd. unfold index_by_path. by rewrite foldl_map_set_NoDup.
Qed.

Lemma index_by_path_NoDup l : NoDup (map_keys (index_by_path l)).
Proof.
  unfold index_by_path.
  assert (∀ m : list (string * FileData), NoDup (map_keys m) →
            NoDup (map_keys (foldl (λ m file, map_set (file_path file) file m) m l)))
    as Hgen.
  { induction l as [|f l IH]; intros m Hm; simpl; [done|].
    apply IH. by apply map_set_NoDup. }
  apply Hgen. apply NoDup_nil_2.
Qed.

Lemma map_get_keyed_Some k g l :
  NoDup (file_path <$> l) →
  map_get k (keyed l) = Some g ↔ g ∈ l ∧ file_path g = k.
Proof.
  intros Hnd. split.
  - intros Hg%map_get_Some_elem. unfold keyed in Hg.
    apply list_elem_of_fmap in Hg as (f & [= -> ->] & Hin). done.
  - intros [Hin <-]. apply map_get_elem_NoDup.
    + by rewrite keyed_keys.
    + unfold keyed. apply list_elem_of_fmap. by exists g.
Qed.

(** The first loop, with the test of [has] and the [get] read as one. *)
Lemma added_modified_cons k f (my other : list (string * FileData)) :
  added_modified ((k, f) :: my) other
  = let '(a, m) := added_modified my other in
    match map_get k other with
    | None => (f :: a, m)
    | Some g =>
        if bool_decide (hash f ≠ hash g) || bool_decide (timestamp f ≠ timestamp g)
        then (a, f :: m)
        else (a, m)
    end.
Proof.
  cbn [added_modified]. unfold map_has.
  destruct (added_modified my other) as [a m].
  destruct (map_get k other) as [g|].
  - by rewrite bool_decide_eq_true_2 by eauto.
  - rewrite bool_decide_eq_false_2; [done|]. by intros [? ?].
Qed.

Lemma added_modified_keyed mine theirs :
  NoDup (file_path <$> theirs) →
  added_modified (keyed mine) (keyed theirs)
  = (filter (absent_from theirs) mine, filter (differs_in theirs) mine).
Proof.
  intros Hnd. induction mine as [|f mine IH]; [done|].
  change (keyed (f :: mine)) with ((file_path f, f) :: keyed mine).
  rewrite added_modified_cons, IH. clear IH.
  destruct (map_get (file_path f) (keyed theirs)) as [g|] eqn:Hget.
  - apply (map_get_keyed_Some _ _ _ Hnd) in Hget as [Hin Hpath].
    assert (¬ absent_from theirs f) as Hpresent.
    { intros Habs. apply Habs. apply list_elem_of_fmap. by exists g. }
    rewrite (filter_cons_False (absent_from theirs)) by done.
    destruct (bool_decide (hash f ≠ hash g) || bool_decide (timestamp f ≠ timestamp g))
      eqn:Hcmp.
    + rewrite (filter_cons_True (differs_in theirs)); [done|].
      apply Exists_exists. exists g. split; [done|]. split; [done|].
      apply orb_true_iff in Hcmp as [Hc|Hc]; apply bool_decide_eq_true in Hc; auto.
    + rewrite (filter_cons_False (differs_in theirs)); [done|].
      intros (g' & Hin' & Hpath' & Hdiff)%Exists_exists.
      assert (g' = g) as ->.
      { assert (map_get (file_path f) (keyed theirs) = Some g') as H1
          by (by apply map_get_keyed_Some).
        assert (map_get (file_path f) (keyed theirs) = Some g) as H2
          by (by apply map_get_keyed_Some).
        congruence. }
      apply orb_false_iff in Hcmp as [Hc1 Hc2].
      apply bool_decide_eq_false in Hc1, Hc2. tauto.
  - apply map_get_None in Hget. rewrite keyed_keys in Hget.
    rewrite (filter_cons_True (absent_from theirs)) by done.
    rewrite (filter_cons_False (differs_in theirs)); [done|].
    intros (g' & Hin' & Hpath' & _)%Exists_exists.
    apply Hget. apply list_elem_of_fmap. by exists g'.
Qed.

Lemma only_in_other_keyed theirs mine :
  only_in_other (keyed theirs) (keyed mine) = filter (absent_from mine) theirs.
Proof.
  induction theirs as [|g theirs IH]; [done|].
  change (keyed (g :: theirs)) with ((file_path g, g) :: keyed theirs).
  cbn [only_in_other]. rewrite IH.
  destruct (map_has (file_path g) (keyed mine)) eqn:Hhas; cbn [negb].
  - apply map_has_true in Hhas. rewrite keyed_keys in Hhas.
    rewrite filter_cons_False; [done|]. intros Habs. by apply Habs.
  - apply map_has_false in Hhas. rewrite keyed_keys in Hhas.
    by rewrite filter_cons_True.
Qed.

(** C5. For every pair of trees [mine], [theirs] (in each, no two entries
    with the same path), [getDifferences mine theirs] returns exactly: in
    [added] the entries of [mine] whose path is absent from [theirs]; in
    [modified] the entries of [mine] whose path is in [theirs] with another
    hash or another timestamp; in [deleted] the entries of [theirs] whose
    path is absent from [mine]; and no entry is in two of the lists. *)
Theorem getDifferences_lists (mine theirs : MerkleTree) :
  paths_unique mine →
  paths_unique theirs →
  let d := getDifferences mine theirs in
  added d = filter (absent_from (getAllFiles theirs)) (getAllFiles mine)
  ∧ modified d = filter (differs_in (getAllFiles theirs)) (getAllFiles mine)
  ∧ deleted d = filter (absent_from (getAllFiles mine)) (getAllFiles theirs)
  ∧ (∀ f, ¬ (f ∈ added d ∧ f ∈ modified d))
  ∧ (∀ f, ¬ (f ∈ added d ∧ f ∈ deleted d))
  ∧ (∀ f, ¬ (f ∈ modified d ∧ f ∈ deleted d)).
Proof.
  intros Hmine Htheirs d.
  assert (added d = filter (absent_from (getAllFiles theirs)) (getAllFiles mine)
          ∧ modified d = filter (differs_in (getAllFiles theirs)) (getAllFiles mine)
          ∧ deleted d = filter (absent_from (getAllFiles mine)) (getAllFiles theirs))
    as (Ha & Hm & Hd).
  { subst d. unfold getDifferences.
    rewrite !index_by_path_keyed by done.
    rewrite added_modified_keyed by done. cbn [added modified deleted].
    by rewrite only_in_other_keyed. }
  rewrite Ha, Hm, Hd. split; [done|]. split; [done|]. split; [done|].
  split; [|split]; intros f.
  - intros [[Habs _]%list_elem_of_filter [Hdiff _]%list_elem_of_filter].
    apply Exists_exists in Hdiff as (g & Hin & Hpath & _).
    apply Habs. apply list_elem_of_fmap. by exists g.
  - intros [[_ Hin]%list_elem_of_filter [Habs _]%list_elem_of_filter].
    apply Habs. apply list_elem_of_fmap. by exists f.
  - intros [[_ Hin]%list_elem_of_filter [Habs _]%list_elem_of_filter].
    apply Habs. apply list_elem_of_fmap. by exists f.
Qed.

Lemma added_modified_within (my m : list (string * FileData)) :
  NoDup (map_keys m) → my ⊆ m → added_modified my m = ([], []).
Proof.
  intros Hnd. induction my as [|[k f] my IH]; intros Hsub; [done|].
  rewrite added_modified_cons, IH by set_solver.
  rewrite (map_get_elem_NoDup k f m) by set_solver.
  rewrite !bool_decide_eq_false_2 by (intros Hne; by apply Hne). done.
Qed.

Lemma only_in_other_within (other m : list (string * FileData)) :
  other ⊆ m → only_in_other other m = [].
Proof.
  induction other as [|[k f] other IH]; intros Hsub; [done|].
  cbn [only_in_other]. rewrite IH by set_solver.
  assert (map_has k m = true) as ->; [|done].
  apply map_has_true. unfold map_keys. apply list_elem_of_fmap.
  exists (k, f). split; [done | set_solver].
Qed.

(** C8. For every tree [A], [getDifferences A A] returns an empty [added],
    an empty [modified] and an empty [deleted] list. *)
Theorem getDifferences_same_tree (A : MerkleTree) :
  getDifferences A A = {| added := []; modified := []; deleted := [] |}.
Proof.
  unfold getDifferences.
  rewrite added_modified_within; [|apply index_by_path_NoDup | done].
  by rewrite only_in_other_within.
Qed.

End ClientDiff.

(** ** The server diff, and the client diff on the same snapshots *)

Section ServerDiff.
Context `{Crypto}.

Lemma server_added_modified (my other : list (string * FileData)) :
  ServerMerkle.added_modified my other = ClientMerkle.added_modified my other.
Proof.
  induction my as [|[k f] my IH]; [done|].
  cbn [ServerMerkle.added_modified ClientMerkle.added_modified]. by rewrite IH.
Qed.

Lemma server_only_in_other (other my : list (string * FileData)) :
  ServerMerkle.only_in_other other my = ClientMerkle.only_in_other other my.
Proof.
  induction other as [|[k f] other IH]; [done|].
  cbn [ServerMerkle.only_in_other ClientMerkle.only_in_other]. by rewrite IH.
Qed.

Lemma map_set_keyed_by_own_path f m :
  keyed_by_own_path m → keyed_by_own_path (map_set (file_path f) f m).
Proof.
  intros [Hnd Hall]. split; [by apply map_set_NoDup|].
  clear Hnd. induction m as [|[k g] m IH]; simpl.
  - by repeat constructor.
  - apply Forall_cons in Hall as [Hk Hall].
    destruct (decide (file_path f = k)); constructor; auto.
Qed.

Lemma path_index_keyed_by_own_path fs m :
  keyed_by_own_path m → keyed_by_own_path (path_index fs m).
Proof.
  revert m. induction fs as [|f fs IH]; intros m Hm; [done|].
  apply IH. by apply map_set_keyed_by_own_path.
Qed.

Lemma keyed_by_own_path_values m :
  keyed_by_own_path m →
  file_path <$> map_values m = map_keys m ∧ keyed (map_values m) = m.
Proof.
  intros [_ Hall]. unfold map_values, map_keys, keyed.
  induction m as [|[k g] m IH]; [done|].
  apply Forall_cons in Hall as [Hk Hall]. simpl in Hk. subst k.
  destruct (IH Hall) as [IH1 IH2]. split; simpl; by f_equal.
Qed.

Lemma index_by_path_values m :
  keyed_by_own_path m → ClientMerkle.index_by_path (map_values m) = m.
Proof.
  intros Hm. destruct (keyed_by_own_path_values m Hm) as [Hk Hv].
  rewrite index_by_path_keyed; [done|]. rewrite Hk. apply Hm.
Qed.

Lemma createFileNode_stored_as_is f now lv :
  stored_as_is f →
  ClientMerkle.createFileNode (file_path f) (metadata_of_file f) now lv
  = map_set (file_path f) (leaf_of f) lv.
Proof.
  intros (Hts & Hurl & Hid). unfold ClientMerkle.createFileNode, leaf_of.
  do 3 f_equal. destruct f as [a1 a2 a3 a4 a5 a6 a7 a8 a9]; simpl in *.
  subst a9. f_equal.
  - unfold js_or. destruct Hurl as [-> | Hurl]; [done | by rewrite Hurl].
  - unfold js_or. by rewrite Hts.
Qed.

Lemma map_set_leaf_of k f (m : list (string * FileData)) :
  map_set k (leaf_of f) (prod_map id leaf_of <$> m)
  = prod_map id leaf_of <$> map_set k f m.
Proof.
  induction m as [|[k' g] m IH]; [done|].
  cbn. destruct (decide (k = k')); cbn; [done|]. by rewrite <- IH.
Qed.

Lemma client_leaves_of_snapshot fs now m :
  Forall stored_as_is fs →
  foldl (λ lv file, ClientMerkle.createFileNode (file_path file) (metadata_of_file file)
                      now lv)
        (prod_map id leaf_of <$> m) fs
  = prod_map id leaf_of <$> path_index fs m.
Proof.
  intros Hall. revert m. induction Hall as [|f fs Hf Hall IH]; intros m; [done|].
  cbn [foldl path_index]. rewrite createFileNode_stored_as_is by done.
  rewrite map_set_leaf_of. apply IH.
Qed.

Lemma getAllFiles_leaf_of m r :
  ClientMerkle.getAllFiles (ClientMerkle.mkTree r (prod_map id leaf_of <$> m))
  = map_values m.
Proof.
  unfold ClientMerkle.getAllFiles, map_values. cbn [ClientMerkle.leaves].
  induction m as [|[k g] m IH]; [done|]. cbn. by rewrite <- IH.
Qed.

Lemma client_files_of_snapshot json now t :
  snapshot_stored_as_is json →
  ClientMerkle.getAllFiles (ClientMerkle.fromJSON json now t)
  = ServerMerkle.getAllFiles (ServerMerkle.fromJSON json ServerMerkle.new_MerkleTree).
Proof.
  unfold snapshot_stored_as_is, ClientMerkle.fromJSON, ServerMerkle.fromJSON.
  intros Hall.
  unfold ClientMerkle.getAllFiles. rewrite leaves_rebuildTree. cbn [ClientMerkle.leaves].
  destruct (files json) as [fs|]; [|done].
  change (@nil (string * ClientMerkle.MerkleNode))
    with (prod_map id leaf_of <$> @nil (string * FileData)).
  rewrite client_leaves_of_snapshot by done.
  apply (getAllFiles_leaf_of _ None).
Qed.

Lemma server_tree_keyed_by_own_path json t :
  keyed_by_own_path (ServerMerkle.tree_files (ServerMerkle.fromJSON json t)).
Proof.
  unfold ServerMerkle.fromJSON.
  assert (keyed_by_own_path []) as Hnil by (split; constructor).
  destruct (files json) as [fs|]; [|done].
  by apply (path_index_keyed_by_own_path fs []).
Qed.

(** C9, amended. On snapshots whose files each have a timestamp, an
    [s3_url] that is [null] or a non-empty string and no [id], the client
    [getDifferences] on the trees that the client [fromJSON] builds and the
    server [getDifferences] on the trees that the server [fromJSON] builds
    return the same [added], [modified] and [deleted] lists. *)
Theorem diff_implementations_agree (jsonA jsonB : TreeJSON) (nowA nowB : string) :
  snapshot_stored_as_is jsonA →
  snapshot_stored_as_is jsonB →
  ClientMerkle.getDifferences
    (ClientMerkle.fromJSON jsonA nowA ClientMerkle.new_MerkleTree)
    (ClientMerkle.fromJSON jsonB nowB ClientMerkle.new_MerkleTree)
  = ServerMerkle.getDifferences
      (ServerMerkle.fromJSON jsonA ServerMerkle.new_MerkleTree)
      (ServerMerkle.fromJSON jsonB ServerMerkle.new_MerkleTree).
Proof.
  intros HA HB.
  unfold ClientMerkle.getDifferences, ServerMerkle.getDifferences.
  rewrite !client_files_of_snapshot by done.
  rewrite <- !server_added_modified, <- !server_only_in_other.
  unfold ServerMerkle.getAllFiles.
  pose proof index_by_path_values as Hidx.
  unfold ClientMerkle.index_by_path in *.
  rewrite !Hidx by apply server_tree_keyed_by_own_path.
  done.
Qed.

End ServerDiff.

(** ** The diff service without a stored tree *)

Section DiffRoute.
Import ServerMerkle.

Lemma only_in_other_nil (other : list (string * FileData)) :
  only_in_other other [] = map_values other.
Proof.
  induction other as [|[k f] other IH]; [done|].
  cbn [only_in_other]. unfold map_values in *. cbn. by rewrite IH.
Qed.

Lemma map_set_not_nil {V} k (v : V) m : map_set k v m ≠ [].
Proof. destruct m as [|[k' v'] m]; simpl; [done|]. by destruct (decide (k = k')). Qed.

Lemma path_index_nil fs m : path_index fs m = [] → fs = [] ∧ m = [].
Proof.
  revert m. induction fs as [|f fs IH]; intros m; [done|].
  cbn [path_index foldl]. intros [_ Hm]%IH. by apply map_set_not_nil in Hm.
Qed.

(** C4, amended. For every diff request where no stored server tree exists
    for the (user, device) pair, the returned differences are an empty
    [added], an empty [modified] and an empty [deleted] list, whatever the
    caller-supplied snapshot; they are the differences of the diff engine
    with an empty tree as [mine] and the snapshot as [theirs] exactly when
    the snapshot has no file. *)
Theorem diff_without_stored_tree (b : Backend) (userId : string) (localTreeData : TreeJSON) :
  differences (post_diff b userId None localTreeData)
  = {| added := []; modified := []; deleted := [] |}
  ∧ (differences (post_diff b userId None localTreeData)
     = getDifferences new_MerkleTree (fromJSON localTreeData new_MerkleTree)
     ↔ files localTreeData = None ∨ files localTreeData = Some []).
Proof.
  split; [done|].
  unfold post_diff, diff_differences, getDifferences, fromJSON.
  cbn [differences added modified deleted tree_files added_modified
       enrichFilesWithFreshUrls fmap list_fmap].
  rewrite only_in_other_nil.
  destruct (files localTreeData) as [fs|]; cbn [tree_files getAllFiles].
  - pose proof (path_index_keyed_by_own_path fs [] ltac:(split; constructor)) as Hk.
    pose proof (index_by_path_values _ Hk) as Hidx.
    unfold ClientMerkle.index_by_path, path_index in Hidx, Hk.
    set (M := foldl _ [] fs) in *.
    unfold getAllFiles, new_MerkleTree. cbn [tree_files added_modified]. rewrite Hidx.
    split.
    + intros [= Hnil]. right. f_equal. symmetry in Hnil.
      apply fmap_nil_inv in Hnil. by apply (path_index_nil fs []) in Hnil as [-> _].
    + intros [[=]|[= ->]]. done.
  - split; [by left | done].
Qed.

End DiffRoute.

(** C4 as stated fails: with no stored tree and the snapshot of one file,
    the route answers with no deleted entry, while the diff engine with an
    empty tree as [mine] lists the file as deleted. *)
Lemma diff_without_stored_tree_differs :
  ServerMerkle.differences
    (ServerMerkle.post_diff Examples.empty_backend "user-1" None
       (snapshot_of [Examples.notes_file]))
  ≠ ServerMerkle.getDifferences ServerMerkle.new_MerkleTree
      (ServerMerkle.fromJSON (snapshot_of [Examples.notes_file])
         ServerMerkle.new_MerkleTree).
Proof. vm_compute. intros [=]. Qed.

(** C9 as stated fails on a file without timestamp: the client stores it
    with the time of the call, so its [added] entry is not the server's, and
    two client trees built from the same list at two moments differ in
    [modified] where the server trees do not. *)
Lemma diff_implementations_disagree :
  ClientMerkle.getDifferences
    (ClientMerkle.fromJSON (snapshot_of [Examples.undated_file]) Examples.t0
       ClientMerkle.new_MerkleTree)
    (ClientMerkle.fromJSON (snapshot_of []) Examples.t0 ClientMerkle.new_MerkleTree)
  ≠ ServerMerkle.getDifferences
      (ServerMerkle.fromJSON (snapshot_of [Examples.undated_file])
         ServerMerkle.new_MerkleTree)
      (ServerMerkle.fromJSON (snapshot_of []) ServerMerkle.new_MerkleTree)
  ∧ modified
      (ClientMerkle.getDifferences
         (ClientMerkle.fromJSON (snapshot_of [Examples.undated_file]) Examples.t0
            ClientMerkle.new_MerkleTree)
         (ClientMerkle.fromJSON (snapshot_of [Examples.undated_file]) Examples.t1
            ClientMerkle.new_MerkleTree))
    ≠ modified
        (ServerMerkle.getDifferences
           (ServerMerkle.fromJSON (snapshot_of [Examples.undated_file])
              ServerMerkle.new_MerkleTree)
           (ServerMerkle.fromJSON (snapshot_of [Examples.undated_file])
              ServerMerkle.new_MerkleTree)).
Proof. vm_compute. split; intros [=]. Qed.

(** ** Loop prevention in the change detector *)

Section EchoSuppression.
Context `{Crypto} `{PathLib} `{Config}.
Import FileWatcher.

Lemma markDownloadComplete_record P fileHash w c :
  recentlyDownloaded (markDownloadComplete P fileHash w c) !! P
  = Some {| rd_hash := fileHash; rd_timestamp := now_ms w |}
  ∧ P ∉ downloadingFiles (markDownloadComplete P fileHash w c).
Proof.
  unfold markDownloadComplete. cbn [recentlyDownloaded downloadingFiles].
  split; [apply lookup_insert_eq |].
  apply not_elem_of_difference. right. by apply elem_of_singleton.
Qed.

(** The record stays while the callback runs no later than the time to
    live after the download, and goes when it runs later. *)
Lemma expireRecentDownload_ttl P fileHash w0 w c :
  let c1 := markDownloadComplete P fileHash w0 c in
  ((now_ms w - now_ms w0 ≤ 10000)%Z → expireRecentDownload P w c1 = c1)
  ∧ ((10000 < now_ms w - now_ms w0)%Z →
     recentlyDownloaded (expireRecentDownload P w c1) !! P = None).
Proof.
  intros c1. subst c1. unfold expireRecentDownload.
  destruct (markDownloadComplete_record P fileHash w0 c) as [Hrec _].
  rewrite Hrec. cbn [rd_timestamp]. split; intros Hms.
  - rewrite bool_decide_eq_false_2 by lia. done.
  - rewrite bool_decide_eq_true_2 by lia. cbn [recentlyDownloaded].
    apply lookup_delete_eq.
Qed.

(** C2. For every path [P] and hash [Hh]: after
    [markDownloadComplete P Hh], with the record not yet expired and
    whatever the directory [disk] holds by then, a create or modify event
    for [P] whose freshly computed hash is [Hh] is discarded by
    [handleFileChange] (the whole client state, so the upload queue and
    the tree, is unchanged), while such an event whose computed hash is
    not [Hh], on a file that the watcher does not ignore, is queued for
    upload and the drain is scheduled. *)
Theorem echo_suppression (P Hh filePath : string) (eventType : EventType)
    (w0 w : Ambient) (disk : gmap string string) (c : Client) :
  path_relative WATCH_DIRECTORY filePath = P →
  is_add_or_change eventType = true →
  let c1 := set_fs disk (markDownloadComplete P (Some Hh) w0 c) in
  let c2 := handleFileChange filePath eventType w c1 in
  (calculateFileHash disk filePath = Some Hh → c2 = c1)
  ∧ (calculateFileHash disk filePath ≠ Some Hh →
     shouldIgnoreFile filePath = false →
     map_get P (uploadQueue c2)
     = Some {| fullPath := filePath; relativePath := P; q_timestamp := now_ms w;
               q_hash := calculateFileHash disk filePath |}
     ∧ timers c2 = (timers c1 ++ [ProcessUploadQueueIn 1000])%list).
Proof.
  intros HP Hev c1 c2.
  destruct (markDownloadComplete_record P (Some Hh) w0 c) as [Hrec Hnotdl].
  assert (recentlyDownloaded c1 !! P
          = Some {| rd_hash := Some Hh; rd_timestamp := now_ms w0 |}) as Hrec1 by done.
  assert (bool_decide (P ∈ downloadingFiles c1) = false) as Hdl
    by (by apply bool_decide_eq_false_2).
  subst c2. unfold handleFileChange. rewrite HP, Hdl, Hev, Hrec1.
  change (fs c1) with disk. cbn [rd_hash].
  split.
  - intros ->. rewrite bool_decide_eq_true_2 by done.
    by destruct (shouldIgnoreFile filePath).
  - intros Hne ->. rewrite bool_decide_eq_false_2 by done.
    match goal with |- context [queueUpload _ _ _ ?x] => set (c1' := x) end.
    assert (timers c1' = timers c1 ∧ fs c1' = disk) as [Ht Hf].
    { subst c1'. destruct (calculateFileHash disk filePath) as [h|];
        destruct (disk !! filePath) as [buffer|];
        try destruct (negb (String.eqb h EmptyString)); done. }
    unfold queueUpload. cbn [uploadQueue timers]. rewrite Hf, Ht.
    split; [apply map_get_set_eq | done].
Qed.

End EchoSuppression.

(** ** Downloads of the sync orchestrator *)

Section Downloads.
Context `{Crypto} `{PathLib} `{Config}.
Import FileWatcher Sync.

Lemma getFile_addOrUpdateFile filePath metadata now t :
  hash <$> ClientMerkle.getFile filePath
             (ClientMerkle.addOrUpdateFile filePath metadata now t)
  = Some (m_hash metadata).
Proof.
  unfold ClientMerkle.getFile, ClientMerkle.addOrUpdateFile.
  destruct (map_get filePath (ClientMerkle.leaves t)) as [node|];
    rewrite leaves_rebuildTree; cbn [ClientMerkle.leaves];
    unfold ClientMerkle.createFileNode; rewrite map_get_set_eq; done.
Qed.

(** C3, amended. For every added or modified entry handed to
    [downloadFileFromServer]: when the local file already has the declared
    hash nothing changes; otherwise, when the entry has an id and the
    download returns, whatever bytes it returns are written to the local
    file and the entry is recorded in the local tree under its declared
    hash, the hash of the downloaded content not being looked at; the
    local tree is left unchanged when the download fails or the entry has
    no id. *)
Theorem downloadFileFromServer_effect (fileMetadata : FileData) (srv : Server)
    (w : Ambient) (c : Client) :
  let localPath := path_join WATCH_DIRECTORY (file_path fileMetadata) in
  let relPath := path_relative WATCH_DIRECTORY localPath in
  let c' := downloadFileFromServer fileMetadata srv w c in
  (calculateFileHash (fs c) localPath = Some (hash fileMetadata) → c' = c)
  ∧ (calculateFileHash (fs c) localPath ≠ Some (hash fileMetadata) →
     truthy (file_id fileMetadata) = true →
     ∀ content, api_downloadFile srv (file_id fileMetadata) = Returns content →
       fs c' !! localPath = Some content
       ∧ hash <$> ClientMerkle.getFile relPath (merkleTree c') = Some (hash fileMetadata)
       ∧ recentlyDownloaded c' !! relPath
         = Some {| rd_hash := Some (hash fileMetadata); rd_timestamp := now_ms w |})
  ∧ (api_downloadFile srv (file_id fileMetadata) = Throws
     ∨ truthy (file_id fileMetadata) = false →
     merkleTree c' = merkleTree c).
Proof.
  intros localPath relPath c'. subst c'. unfold downloadFileFromServer.
  fold localPath. fold relPath.
  split; [|split].
  - intros Hsame. rewrite Hsame.
    assert (is_Some (fs c !! localPath)) as Hex.
    { unfold calculateFileHash in Hsame. destruct (fs c !! localPath); [eauto | done]. }
    rewrite !bool_decide_eq_true_2 by done. done.
  - intros Hdiff Hid content Hdl.
    rewrite (bool_decide_eq_false_2 (_ = _)) by done. rewrite andb_false_r.
    rewrite Hid, Hdl.
    split; [|split].
    + cbn [fs markDownloadComplete set_merkleTree write_file]. apply lookup_insert_eq.
    + cbn [merkleTree markDownloadComplete set_merkleTree].
      apply getFile_addOrUpdateFile.
    + apply markDownloadComplete_record.
  - intros Hfail.
    destruct (bool_decide (is_Some (fs c !! localPath))
              && bool_decide (calculateFileHash (fs c) localPath
                              = Some (hash fileMetadata))); [done|].
    destruct Hfail as [Hthrows|Hnoid].
    + rewrite Hthrows. by destruct (truthy (file_id fileMetadata)).
    + by rewrite Hnoid.
Qed.

End Downloads.

(** C3 as stated fails: the server lists [notes.txt] with the hash of
    [hello world] and sends other bytes; the client writes them, and its
    tree, empty before, records [notes.txt] under the declared hash. *)
Lemma unverified_download_is_recorded :
  FileWatcher.calculateFileHash
    (FileWatcher.fs Examples.client_after_download) Examples.notes_path
  ≠ Some (hash Examples.served_notes)
  ∧ hash <$> ClientMerkle.getFile "notes.txt"
               (FileWatcher.merkleTree Examples.client_after_download)
    = Some (hash Examples.served_notes)
  ∧ FileWatcher.merkleTree Examples.client_after_download
    ≠ FileWatcher.merkleTree Examples.initial_client.
Proof.
  vm_compute. split; [intros [=] | split; [done | intros [=]]].
Qed.

(** ** Overlapping sync cycles *)

Section SyncCycles.
Context `{Crypto} `{PathLib} `{Config}.
Import FileWatcher Sync.

(** C6, amended. [performSync] has no busy flag: every call starts a
    cycle and sends its request for the differences, whatever the number
    of cycles already active; after [startPeriodicSync], a firing of the
    interval timer while the first cycle still waits for its answer makes
    two cycles active. *)
Theorem performSync_always_starts (w w' : Ambient) (r : Runtime) :
  active_cycles (performSync_call w r) = S (active_cycles r)
  ∧ requests (client (performSync_call w r))
    = (requests (client r)
       ++ [GetMerkleTreeDifferences DEVICE_ID
             (ClientMerkle.toJSON (now_iso w) (merkleTree (client r)))])%list
  ∧ active_cycles (interval_fires w' (startPeriodicSync w r)) = S (S (active_cycles r)).
Proof.
  unfold active_cycles, interval_fires, startPeriodicSync, performSync_call.
  cbn [awaitingDiff intervalArmed client requests send].
  rewrite !length_app. cbn [length]. split; [lia|]. split; [done | lia].
Qed.

End SyncCycles.

(** C6 as stated fails: the interval timer fires while the cycle started
    by [startPeriodicSync] still waits for the server; two cycles are then
    active and the second one has sent its own request. *)
Lemma sync_cycles_overlap :
  Sync.active_cycles
    (Sync.interval_fires Examples.clock1
       (Sync.startPeriodicSync Examples.clock0 Examples.initial_runtime)) = 2
  ∧ length (FileWatcher.requests (Sync.client
      (Sync.interval_fires Examples.clock1
         (Sync.startPeriodicSync Examples.clock0 Examples.initial_runtime)))) = 2.
Proof. vm_compute. done. Qed.

(** ** The theorems at concrete inputs *)

Lemma rootHash_insertion_order_witness :
  NoDup Examples.entries_one_order.*1
  ∧ Examples.entries_one_order ≡ₚ Examples.entries_other_order
  ∧ ClientMerkle.getRootHash
      (insertAll (λ _, Examples.t1) 0 Examples.entries_other_order
         ClientMerkle.new_MerkleTree)
    = ClientMerkle.getRootHash
        (insertAll (λ _, Examples.t0) 0 Examples.entries_one_order
           ClientMerkle.new_MerkleTree).
Proof.
  assert (NoDup Examples.entries_one_order.*1) as Hnd.
  { refine (bool_decide_unpack _ _). vm_compute. exact I. }
  assert (Examples.entries_one_order ≡ₚ Examples.entries_other_order) as Hperm.
  { unfold Examples.entries_one_order, Examples.entries_other_order.
    apply (Permutation_cons_append [_; _]). }
  split; [exact Hnd|]. split; [exact Hperm|].
  exact (rootHash_insertion_order _ _ _ _ Hnd Hperm).
Defined.

Lemma getDifferences_lists_witness :
  paths_unique Examples.tree_mine
  ∧ paths_unique Examples.tree_theirs
  ∧ added (ClientMerkle.getDifferences Examples.tree_mine Examples.tree_theirs)
    = filter (absent_from (ClientMerkle.getAllFiles Examples.tree_theirs))
        (ClientMerkle.getAllFiles Examples.tree_mine)
  ∧ modified (ClientMerkle.getDifferences Examples.tree_mine Examples.tree_theirs)
    = filter (differs_in (ClientMerkle.getAllFiles Examples.tree_theirs))
        (ClientMerkle.getAllFiles Examples.tree_mine)
  ∧ deleted (ClientMerkle.getDifferences Examples.tree_mine Examples.tree_theirs)
    = filter (absent_from (ClientMerkle.getAllFiles Examples.tree_mine))
        (ClientMerkle.getAllFiles Examples.tree_theirs).
Proof.
  assert (paths_unique Examples.tree_mine) as Hmine.
  { refine (bool_decide_unpack _ _). vm_compute. exact I. }
  assert (paths_unique Examples.tree_theirs) as Htheirs.
  { refine (bool_decide_unpack _ _). vm_compute. exact I. }
  split; [exact Hmine|]. split; [exact Htheirs|].
  destruct (getDifferences_lists _ _ Hmine Htheirs) as (Ha & Hm & Hd & _).
  split; [exact Ha|]. split; [exact Hm | exact Hd].
Defined.

Lemma diff_implementations_agree_witness :
  snapshot_stored_as_is (snapshot_of [Examples.notes_file; Examples.report_file])
  ∧ snapshot_stored_as_is (snapshot_of [Examples.report_file])
  ∧ ClientMerkle.getDifferences
      (ClientMerkle.fromJSON (snapshot_of [Examples.notes_file; Examples.report_file])
         Examples.t1 ClientMerkle.new_MerkleTree)
      (ClientMerkle.fromJSON (snapshot_of [Examples.report_file])
         Examples.t2 ClientMerkle.new_MerkleTree)
    = ServerMerkle.getDifferences
        (ServerMerkle.fromJSON (snapshot_of [Examples.notes_file; Examples.report_file])
           ServerMerkle.new_MerkleTree)
        (ServerMerkle.fromJSON (snapshot_of [Examples.report_file])
           ServerMerkle.new_MerkleTree).
Proof.
  assert (stored_as_is Examples.notes_file) as Hnotes.
  { split; [reflexivity|]. split; [right; reflexivity | reflexivity]. }
  assert (stored_as_is Examples.report_file) as Hreport.
  { split; [reflexivity|]. split; [left; reflexivity | reflexivity]. }
  assert (snapshot_stored_as_is (snapshot_of [Examples.notes_file; Examples.report_file]))
    as HA by (repeat constructor; assumption).
  assert (snapshot_stored_as_is (snapshot_of [Examples.report_file]))
    as HB by (repeat constructor; assumption).
  split; [exact HA|]. split; [exact HB|].
  exact (diff_implementations_agree _ _ _ _ HA HB).
Defined.

Lemma diff_without_stored_tree_witness :
  ServerMerkle.differences
    (ServerMerkle.post_diff Examples.empty_backend "user-1" None (snapshot_of []))
  = ServerMerkle.getDifferences ServerMerkle.new_MerkleTree
      (ServerMerkle.fromJSON (snapshot_of []) ServerMerkle.new_MerkleTree).
Proof.
  apply (proj2 (diff_without_stored_tree Examples.empty_backend "user-1" (snapshot_of []))).
  right. reflexivity.
Defined.

Lemma echo_suppression_witness :
  FileWatcher.handleFileChange Examples.notes_path FileWatcher.Change Examples.clock1
    (FileWatcher.set_fs Examples.disk_downloaded
       (FileWatcher.markDownloadComplete "notes.txt" (Some Examples.notes_hash)
          Examples.clock0 Examples.initial_client))
  = FileWatcher.set_fs Examples.disk_downloaded
      (FileWatcher.markDownloadComplete "notes.txt" (Some Examples.notes_hash)
         Examples.clock0 Examples.initial_client)
  ∧ map_get "notes.txt"
      (FileWatcher.uploadQueue
         (FileWatcher.handleFileChange Examples.notes_path FileWatcher.Change
            Examples.clock1
            (FileWatcher.set_fs Examples.disk_edited
               (FileWatcher.markDownloadComplete "notes.txt" (Some Examples.notes_hash)
                  Examples.clock0 Examples.initial_client))))
    = Some {| FileWatcher.fullPath := Examples.notes_path;
              FileWatcher.relativePath := "notes.txt";
              FileWatcher.q_timestamp := now_ms Examples.clock1;
              FileWatcher.q_hash :=
                FileWatcher.calculateFileHash Examples.disk_edited Examples.notes_path |}.
Proof.
  assert (path_relative WATCH_DIRECTORY Examples.notes_path = "notes.txt") as HP
    by (vm_compute; reflexivity).
  assert (FileWatcher.is_add_or_change FileWatcher.Change = true) as Hev by reflexivity.
  split.
  - apply (proj1 (echo_suppression "notes.txt" Examples.notes_hash Examples.notes_path
                    FileWatcher.Change Examples.clock0 Examples.clock1
                    Examples.disk_downloaded Examples.initial_client HP Hev)).
    vm_compute. reflexivity.
  - apply (proj2 (echo_suppression "notes.txt" Examples.notes_hash Examples.notes_path
                    FileWatcher.Change Examples.clock0 Examples.clock1
                    Examples.disk_edited Examples.initial_client HP Hev)).
    + vm_compute. intros [=].
    + vm_compute. reflexivity.
Defined.

Lemma downloadFileFromServer_effect_witness :
  FileWatcher.fs Examples.client_after_download !! Examples.notes_path = Some "hello w0rld"
  ∧ hash <$> ClientMerkle.getFile "notes.txt"
               (FileWatcher.merkleTree Examples.client_after_download)
    = Some Examples.notes_hash
  ∧ FileWatcher.merkleTree
      (Sync.downloadFileFromServer Examples.served_notes Examples.failing_server
         Examples.clock0 Examples.initial_client)
    = FileWatcher.merkleTree Examples.initial_client.
Proof.
  pose proof (downloadFileFromServer_effect Examples.served_notes
                Examples.other_bytes_server Examples.clock0 Examples.initial_client)
    as (_ & Hreturns & _).
  pose proof (downloadFileFromServer_effect Examples.served_notes
                Examples.failing_server Examples.clock0 Examples.initial_client)
    as (_ & _ & Hthrows).
  destruct (Hreturns ltac:(vm_compute; intros [=]) ltac:(reflexivity)
              "hello w0rld" ltac:(reflexivity)) as (Hfs & Htree & _).
  split; [exact Hfs|]. split; [exact Htree|].
  apply Hthrows. left. reflexivity.
Defined.

(** * Further properties of the code *)

(** ** More on the insertion-ordered map *)

Section JsMapSplit.
Context {V : Type}.
Implicit Types (k : string) (v : V) (m : list (string * V)).

Lemma map_get_split k v m :
  map_get k m = Some v →
  ∃ l1 l2, m = (l1 ++ (k, v) :: l2)%list ∧ k ∉ map_keys l1.
Proof.
  induction m as [|[k' v'] m IH]; simpl; [done|].
  destruct (decide (k = k')) as [->|Hne].
  - intros [= ->]. exists [], m. split; [done | apply not_elem_of_nil].
  - intros Hget. destruct (IH Hget) as (l1 & l2 & -> & Hnotin).
    exists ((k', v') :: l1), l2. split; [done|].
    unfold map_keys in *. cbn. apply not_elem_of_cons. done.
Qed.

Lemma map_get_app_notin k (l1 l2 : list (string * V)) :
  k ∉ map_keys l1 → map_get k (l1 ++ l2)%list = map_get k l2.
Proof.
  unfold map_keys. induction l1 as [|[k' v'] l1 IH]; simpl; [done|].
  intros [Hne Hnotin]%not_elem_of_cons. rewrite decide_False by done. auto.
Qed.

Lemma map_set_split k v v' (l1 l2 : list (string * V)) :
  k ∉ map_keys l1 →
  map_set k v' (l1 ++ (k, v) :: l2)%list = (l1 ++ (k, v') :: l2)%list.
Proof.
  unfold map_keys. induction l1 as [|[k0 v0] l1 IH]; simpl.
  - intros _. by rewrite decide_True.
  - intros [Hne Hnotin]%not_elem_of_cons. rewrite decide_False by done.
    by rewrite IH.
Qed.

Lemma map_delete_split k v (l1 l2 : list (string * V)) :
  k ∉ map_keys l1 →
  map_delete k (l1 ++ (k, v) :: l2)%list = (l1 ++ l2)%list.
Proof.
  unfold map_keys. induction l1 as [|[k0 v0] l1 IH]; simpl.
  - intros _. by rewrite decide_True.
  - intros [Hne Hnotin]%not_elem_of_cons. rewrite decide_False by done.
    by rewrite IH.
Qed.

Lemma map_delete_absent k m : k ∉ map_keys m → map_delete k m = m.
Proof.
  unfold map_keys. induction m as [|[k' v'] m IH]; simpl; [done|].
  intros [Hne Hnotin]%not_elem_of_cons. rewrite decide_False by done.
  by rewrite IH.
Qed.

Lemma map_get_delete_ne k k' m : k ≠ k' → map_get k' (map_delete k m) = map_get k' m.
Proof.
  intros Hne. induction m as [|[k0 v0] m IH]; simpl; [done|].
  destruct (decide (k = k0)) as [->|Hne0]; simpl.
  - by rewrite decide_False.
  - destruct (decide (k' = k0)); [done | apply IH].
Qed.

Lemma map_get_delete_eq k m : NoDup (map_keys m) → map_get k (map_delete k m) = None.
Proof.
  intros Hnd. apply map_get_None.
  destruct (map_get k m) as [v|] eqn:Hget.
  - destruct (map_get_split _ _ _ Hget) as (l1 & l2 & -> & Hnotin).
    rewrite map_delete_split by done.
    unfold map_keys in *. rewrite fmap_app in *. cbn in Hnd.
    apply NoDup_app in Hnd as (_ & Hdisj & [Hk _]%NoDup_cons).
    intros [Hin|Hin]%elem_of_app; [done | done].
  - apply map_get_None in Hget. by rewrite map_delete_absent.
Qed.

End JsMapSplit.

(** ** The client tree: what its methods keep *)

Section MerkleMore.
Context `{Crypto}.
Import ClientMerkle.

Lemma rebuildTree_idem t : rebuildTree (rebuildTree t) = rebuildTree t.
Proof.
  unfold rebuildTree at 1. rewrite leaves_rebuildTree. unfold rebuildTree.
  by destruct (map_values (leaves t)) as [|n [|n' l]].
Qed.

Lemma built_by_callers_rebuilt t : built_by_callers t → rebuildTree t = t.
Proof.
  induction 1 as [| p m now t Ht IH Hpath | p url now t Ht IH | p t Ht IH | json now t].
  - done.
  - unfold addOrUpdateFile. destruct (map_get p (leaves t)); apply rebuildTree_idem.
  - unfold updateS3Url. destruct (map_get p (leaves t)) as [node|]; [|done].
    destruct (data node); [apply rebuildTree_idem | done].
  - unfold removeFile. destruct (map_has p (leaves t)); [apply rebuildTree_idem | done].
  - apply rebuildTree_idem.
Qed.

(** No method leaves a stale root behind: in every tree that the callers
    build, the stored root is the one [rebuildTree] computes from the
    current leaves. *)
Theorem built_trees_root_up_to_date (t : MerkleTree) :
  built_by_callers t → root_up_to_date t.
Proof. apply built_by_callers_rebuilt. Qed.

Lemma rebuildTree_root_None t : getRootHash (rebuildTree t) = None ↔ leaves t = [].
Proof.
  unfold rebuildTree, getRootHash, map_values.
  destruct (leaves t) as [|[k n] [|[k' n'] l]] eqn:Hl; cbn [fmap list_fmap root snd]; [done..|].
  pose proof (build_levels_terminates (length (n :: n' :: l.*2)) (n :: n' :: l.*2)
                ltac:(done) ltac:(lia)) as Hlen.
  destruct (build_levels _ _) as [|r rest]; [done|]. done.
Qed.

Lemma getAllFiles_nil t : leaves_by_own_path t → (getAllFiles t = [] ↔ leaves t = []).
Proof.
  intros [_ Hall]. unfold getAllFiles, map_values.
  destruct (leaves t) as [|[k n] l]; [done|].
  apply Forall_cons in Hall as [(d & Hd & _) _]. cbn in *. rewrite Hd. done.
Qed.

(** The root hash is [null] exactly when the tree has no file: the loop of
    [rebuildTree] always ends with a root when there is a leaf. *)
Theorem rootHash_null_iff_no_file (t : MerkleTree) :
  built_by_callers t → (getRootHash t = None ↔ getAllFiles t = []).
Proof.
  intros Ht. rewrite <- (built_by_callers_rebuilt t Ht) at 1.
  rewrite rebuildTree_root_None. symmetry. apply getAllFiles_nil.
  by apply built_by_callers_by_own_path.
Qed.

Lemma removeFile_gone filePath t :
  NoDup (map_keys (leaves t)) → getFile filePath (removeFile filePath t).2 = None.
Proof.
  intros Hnd. unfold removeFile, getFile.
  destruct (map_has filePath (leaves t)) eqn:Hhas; cbn [snd].
  - rewrite leaves_rebuildTree. cbn [leaves]. by rewrite map_get_delete_eq.
  - apply map_has_false, map_get_None in Hhas. by rewrite Hhas.
Qed.

Lemma removeFile_absent filePath t :
  map_has filePath (leaves t) = false → (removeFile filePath t).2 = t.
Proof. intros Hhas. unfold removeFile. by rewrite Hhas. Qed.

(** [removeFile] answers whether the path was there; afterwards the path
    is gone and every other path has the data it had; an absent path leaves
    the tree as it is. *)
Theorem removeFile_effect (filePath : string) (t : MerkleTree) :
  NoDup (map_keys (leaves t)) →
  (removeFile filePath t).1 = map_has filePath (leaves t)
  ∧ getFile filePath (removeFile filePath t).2 = None
  ∧ (∀ other, other ≠ filePath →
       getFile other (removeFile filePath t).2 = getFile other t)
  ∧ (map_has filePath (leaves t) = false → (removeFile filePath t).2 = t).
Proof.
  intros Hnd. split; [|split; [by apply removeFile_gone | split]].
  - unfold removeFile. by destruct (map_has filePath (leaves t)).
  - intros other Hne. unfold removeFile, getFile.
    destruct (map_has filePath (leaves t)); cbn [snd]; [|done].
    rewrite leaves_rebuildTree. cbn [leaves]. by rewrite map_get_delete_ne.
  - by apply removeFile_absent.
Qed.

(** Every file is either uploaded or pending, never both. *)
Theorem uploaded_pending_partition (t : MerkleTree) :
  getAllFiles t ≡ₚ (getUploadedFiles t ++ getPendingUploads t)%list
  ∧ ∀ f, ¬ (f ∈ getUploadedFiles t ∧ f ∈ getPendingUploads t).
Proof.
  unfold getUploadedFiles, getPendingUploads. split.
  - induction (getAllFiles t) as [|f l IH]; [done|].
    rewrite !filter_cons. destruct (truthy (s3_url f)) eqn:Hf.
    + rewrite decide_True by done. rewrite decide_False by done.
      cbn. by rewrite <- IH.
    + rewrite decide_False by done. rewrite decide_True by done.
      rewrite <- Permutation_middle. by rewrite <- IH.
  - intros f [[Hu _]%list_elem_of_filter [Hp _]%list_elem_of_filter]. congruence.
Qed.

(** [updateS3Url] with a non-empty URL on a path of the tree makes the
    file an uploaded one: [isFileUploaded] gives the URL, the entry is among
    [getUploadedFiles] and no entry of that path is among
    [getPendingUploads]; on a path that is not in the tree it answers
    [false] and changes nothing. *)
Theorem updateS3Url_marks_uploaded (filePath s3Url now : string) (t : MerkleTree) :
  leaves_by_own_path t →
  s3Url ≠ EmptyString →
  let t' := (updateS3Url filePath s3Url now t).2 in
  (is_Some (getFile filePath t) →
     (updateS3Url filePath s3Url now t).1 = true
     ∧ isFileUploaded filePath t' = JString s3Url
     ∧ (∃ f, getFile filePath t' = Some f ∧ f ∈ getUploadedFiles t')
     ∧ ∀ f, file_path f = filePath → f ∉ getPendingUploads t')
  ∧ (getFile filePath t = None → updateS3Url filePath s3Url now t = (false, t)).
Proof.
  intros Hown Hurl t'. subst t'. unfold getFile, isFileUploaded.
  assert (truthy (JString s3Url) = true) as Htruthy.
  { cbn. apply negb_true_iff. by apply String.eqb_neq. }
  destruct (map_get filePath (leaves t)) as [node|] eqn:Hget.
  - destruct (data node) as [d|] eqn:Hd.
    + split; [|done]. intros _.
      destruct (updateS3Url_frame filePath s3Url now t node d Hget Hd)
        as (Hret & (node' & Hget' & Hd') & Hothers & Hkeys).
      rewrite Hret, Hget', Hd'. cbn [s3_url].
      assert (leaves_by_own_path (updateS3Url filePath s3Url now t).2) as Hown'.
      { unfold updateS3Url. rewrite Hget, Hd. cbn [snd].
        destruct Hown as [Hnd Hall]. split; rewrite leaves_rebuildTree; cbn [leaves].
        - by apply map_set_NoDup.
        - apply map_set_Forall; [done|]. eexists. split; [done|].
          apply map_get_Some_elem in Hget.
          destruct (proj1 (Forall_forall _ _) Hall _ Hget) as (d0 & Hd0 & Hk).
          cbn [snd fst file_path] in *. congruence. }
      assert (∀ f, f ∈ getAllFiles (updateS3Url filePath s3Url now t).2 →
                   file_path f = filePath → s3_url f = JString s3Url) as Hurlof.
      { intros f Hin Hpath. destruct Hown' as [Hnd' Hall'].
        unfold getAllFiles, map_values in Hin.
        apply list_elem_of_omap in Hin as (n0 & Hn0 & Hdata).
        apply list_elem_of_fmap in Hn0 as ([k n1] & -> & Hkn).
        destruct (proj1 (Forall_forall _ _) Hall' _ Hkn) as (d1 & Hd1 & Hk1).
        cbn [snd fst] in *. assert (d1 = f) as -> by congruence. subst k.
        rewrite Hpath in Hkn.
        pose proof (map_get_elem_NoDup _ _ _ Hnd' Hkn) as Hg. rewrite Hget' in Hg.
        injection Hg as <-. rewrite Hd' in Hdata. by injection Hdata as <-. }
      split; [done|]. split; [done|]. split.
      * eexists. split; [done|]. unfold getUploadedFiles.
        apply list_elem_of_filter. split; [done|].
        unfold getAllFiles, map_values. apply list_elem_of_omap.
        exists node'. split; [|done]. apply list_elem_of_fmap.
        exists (filePath, node'). split; [done|]. by apply map_get_Some_elem.
      * intros f Hpath [Hfalse Hin]%list_elem_of_filter.
        rewrite (Hurlof f Hin Hpath), Htruthy in Hfalse. done.
    + split; [by intros [? ?]|]. intros _. unfold updateS3Url. by rewrite Hget, Hd.
  - split; [by intros [? ?]|]. intros _. unfold updateS3Url. by rewrite Hget.
Qed.

End MerkleMore.

(** ** Snapshots and differences *)

Section SnapshotsAndDiffs.
Context `{Crypto}.
Import ClientMerkle.

Lemma values_keyed (l : list FileData) : map_values (keyed l) = l.
Proof.
  unfold map_values, keyed. rewrite <- list_fmap_compose.
  induction l as [|f l IH]; [done|]. cbn. by rewrite IH.
Qed.

Lemma round_trip_files t now now' t0 :
  leaves_by_own_path t →
  Forall stored_as_is (getAllFiles t) →
  getAllFiles (fromJSON (toJSON now t) now' t0) = getAllFiles t.
Proof.
  intros Hown Hstored.
  rewrite client_files_of_snapshot by done.
  unfold ServerMerkle.getAllFiles, ServerMerkle.fromJSON, toJSON. cbn [files].
  cbn [ServerMerkle.tree_files].
  pose proof (leaves_by_own_path_unique t Hown) as Hnd. unfold paths_unique in Hnd.
  rewrite (foldl_map_set_NoDup file_path (getAllFiles t) []) by done.
  apply values_keyed.
Qed.

Lemma getDifferences_same_files t u :
  getAllFiles u = getAllFiles t → getDifferences t u = no_differences.
Proof.
  intros Hfiles. unfold getDifferences. rewrite Hfiles.
  rewrite added_modified_within; [|apply index_by_path_NoDup | done].
  by rewrite only_in_other_within.
Qed.

(** A snapshot round trip keeps the files, in their order, of a tree whose
    entries are all stored as they are (a timestamp, an [s3_url] that is
    [null] or non-empty). *)
Theorem snapshot_round_trip_keeps_files (t t0 : MerkleTree) (now now' : string) :
  leaves_by_own_path t →
  Forall stored_as_is (getAllFiles t) →
  getAllFiles (fromJSON (toJSON now t) now' t0) = getAllFiles t.
Proof. apply round_trip_files. Qed.

(** Such a tree has no differences with the tree reloaded from its own
    snapshot, in either direction. *)
Theorem reloaded_tree_has_no_differences (t t0 : MerkleTree) (now now' : string) :
  leaves_by_own_path t →
  Forall stored_as_is (getAllFiles t) →
  getDifferences t (fromJSON (toJSON now t) now' t0) = no_differences
  ∧ getDifferences (fromJSON (toJSON now t) now' t0) t = no_differences.
Proof.
  intros Hown Hstored.
  pose proof (round_trip_files t now now' t0 Hown Hstored) as Hfiles.
  split; apply getDifferences_same_files; done.
Qed.

Lemma not_differs_in_own (l : list FileData) f :
  NoDup (file_path <$> l) → f ∈ l → ¬ differs_in l f.
Proof.
  intros Hnd Hin (g & Hg & Hpath & Hdiff)%Exists_exists.
  assert (g = f) as ->.
  { assert (map_get (file_path f) (keyed l) = Some g) as H1
      by (by apply map_get_keyed_Some).
    assert (map_get (file_path f) (keyed l) = Some f) as H2
      by (by apply map_get_keyed_Some).
    congruence. }
  tauto.
Qed.

Lemma filter_none {A} (P : A → Prop) `{!∀ x, Decision (P x)} (l : list A) :
  (∀ x, x ∈ l → ¬ P x) → filter P l = [].
Proof.
  induction l as [|x l IH]; intros Hall; [done|].
  rewrite filter_cons_False by (apply Hall; by left).
  apply IH. intros y Hy. apply Hall. by right.
Qed.

Lemma filter_all {A} (P : A → Prop) `{!∀ x, Decision (P x)} (l : list A) :
  (∀ x, x ∈ l → P x) → filter P l = l.
Proof.
  induction l as [|x l IH]; intros Hall; [done|].
  rewrite filter_cons_True by (apply Hall; by left).
  f_equal. apply IH. intros y Hy. apply Hall. by right.
Qed.

Lemma getDifferences_filters mine theirs :
  paths_unique mine → paths_unique theirs →
  getDifferences mine theirs
  = {| added := filter (absent_from (getAllFiles theirs)) (getAllFiles mine);
       modified := filter (differs_in (getAllFiles theirs)) (getAllFiles mine);
       deleted := filter (absent_from (getAllFiles mine)) (getAllFiles theirs) |}.
Proof.
  intros Hmine Htheirs. unfold getDifferences.
  rewrite !index_by_path_keyed by done.
  rewrite added_modified_keyed by done. by rewrite only_in_other_keyed.
Qed.

(** The data of the leaves, when each leaf has data. *)
Lemma getAllFiles_app r (l1 l2 : list (string * MerkleNode)) :
  getAllFiles (mkTree r (l1 ++ l2)) = (getAllFiles (mkTree r l1) ++ getAllFiles (mkTree r l2))%list.
Proof.
  unfold getAllFiles, map_values. cbn [leaves]. rewrite fmap_app. apply omap_app.
Qed.

Lemma getAllFiles_leaves t : getAllFiles t = getAllFiles (mkTree None (leaves t)).
Proof. done. Qed.

(** Swapping the two trees swaps [added] and [deleted], and the same paths
    are reported as modified. *)
Theorem getDifferences_swap (A B : MerkleTree) :
  paths_unique A →
  paths_unique B →
  added (getDifferences A B) = deleted (getDifferences B A)
  ∧ deleted (getDifferences A B) = added (getDifferences B A)
  ∧ ∀ p, p ∈ file_path <$> modified (getDifferences A B)
         ↔ p ∈ file_path <$> modified (getDifferences B A).
Proof.
  intros HA HB. rewrite !getDifferences_filters by done. cbn [added modified deleted].
  split; [done|]. split; [done|].
  assert (∀ X Y : list FileData, ∀ p,
            p ∈ file_path <$> filter (differs_in Y) X →
            p ∈ file_path <$> filter (differs_in X) Y) as Hdir.
  { intros X Y p (f & -> & [Hdiff Hin]%list_elem_of_filter)%list_elem_of_fmap.
    apply Exists_exists in Hdiff as (g & Hg & Hpath & Hne).
    apply list_elem_of_fmap. exists g. split; [done|].
    apply list_elem_of_filter. split; [|done].
    apply Exists_exists. exists f. split; [done|]. split; [done|].
    destruct Hne as [Hne|Hne]; [left | right]; congruence. }
  intros p. split; apply Hdir.
Qed.

End SnapshotsAndDiffs.

(** ** One change to the tree, seen by the diff *)

Section OneChange.
Context `{Crypto}.
Import ClientMerkle.
Local Open Scope list_scope.

Lemma paths_are_keys t :
  leaves_by_own_path t → file_path <$> getAllFiles t = map_keys (leaves t).
Proof.
  intros [_ Hall]. unfold getAllFiles, map_values, map_keys.
  induction Hall as [|[k n] l (d & Hd & Hk) Hall IH]; [done|].
  cbn in *. rewrite Hd. cbn. by f_equal.
Qed.

Lemma getFile_None_key p t :
  leaves_by_own_path t → getFile p t = None → p ∉ map_keys (leaves t).
Proof.
  intros [_ Hall] Hnone. apply map_get_None. unfold getFile in Hnone.
  destruct (map_get p (leaves t)) as [node|] eqn:Hget; [|done].
  apply map_get_Some_elem in Hget.
  destruct (proj1 (Forall_forall _ _) Hall _ Hget) as (d & Hd & _).
  cbn in *. congruence.
Qed.

Lemma present_not_absent (l : list FileData) f : f ∈ l → ¬ absent_from l f.
Proof. intros Hin Habs. apply Habs. apply list_elem_of_fmap. by exists f. Qed.

(** The files of a tree around the leaf of one path. *)
Lemma files_around p node d (l1 l2 : list (string * MerkleNode)) r :
  data node = Some d →
  getAllFiles (mkTree r (l1 ++ (p, node) :: l2))
  = (getAllFiles (mkTree r l1) ++ d :: getAllFiles (mkTree r l2))%list.
Proof.
  intros Hd. rewrite getAllFiles_app. f_equal.
  unfold getAllFiles, map_values. cbn. by rewrite Hd.
Qed.

(** Adding a file under a new path: against the tree before, the diff
    reports exactly that entry as added, nothing modified or deleted; seen
    from the tree before, exactly that entry is deleted. *)
Theorem added_file_is_the_difference (filePath : string) (metadata : Metadata)
    (now : string) (t : MerkleTree) :
  leaves_by_own_path t →
  getFile filePath t = None →
  let t' := addOrUpdateFile filePath metadata now t in
  ∃ d, getFile filePath t' = Some d
       ∧ hash d = m_hash metadata
       ∧ getDifferences t' t = {| added := [d]; modified := []; deleted := [] |}
       ∧ getDifferences t t' = {| added := []; modified := []; deleted := [d] |}.
Proof.
  intros Hown Hnone t'.
  pose proof (getFile_None_key _ _ Hown Hnone) as Hnotin.
  assert (map_get filePath (leaves t) = None) as Hget by (by apply map_get_None).
  set (d := {| filename := m_filename metadata; file_path := filePath;
               local_url := m_local_url metadata;
               s3_url := js_or (m_s3_url metadata) JNull;
               hash := m_hash metadata; size := m_size metadata;
               timestamp := js_or (m_timestamp metadata) (JString now);
               mime_type := m_mime_type metadata; file_id := JUndefined |}).
  assert (leaves t' = (leaves t ++ [(filePath, leaf_of d)])%list) as Hleaves.
  { subst t'. unfold addOrUpdateFile. rewrite Hget, leaves_rebuildTree.
    cbn [leaves]. unfold createFileNode. by rewrite map_set_new. }
  assert (getAllFiles t' = (getAllFiles t ++ [d])%list) as Hfiles.
  { rewrite (getAllFiles_leaves t'), Hleaves, getAllFiles_app. done. }
  pose proof (leaves_by_own_path_unique t Hown) as Hnd. unfold paths_unique in Hnd.
  pose proof (paths_are_keys t Hown) as Hkeys.
  assert (filePath ∉ file_path <$> getAllFiles t) as Hfresh by (by rewrite Hkeys).
  assert (paths_unique t') as Hnd'.
  { unfold paths_unique. rewrite Hfiles, fmap_app. apply NoDup_app.
    split; [done|]. split; [|apply NoDup_singleton].
    intros x Hx ->%list_elem_of_singleton. done. }
  exists d. split.
  { unfold getFile. rewrite Hleaves. rewrite map_get_app_notin by done.
    cbn. by rewrite decide_True. }
  split; [done|].
  assert (filter (absent_from (getAllFiles t)) (getAllFiles t ++ [d]) = [d]) as Hnew.
  { rewrite filter_app, filter_none by (intros; by apply present_not_absent).
    by rewrite filter_cons_True. }
  assert (filter (absent_from (getAllFiles t ++ [d])) (getAllFiles t) = []) as Hold.
  { apply filter_none. intros f Hin. apply present_not_absent.
    apply elem_of_app. by left. }
  rewrite !getDifferences_filters by done. rewrite Hfiles, Hnew, Hold.
  split; f_equal.
  - rewrite filter_app, filter_none by (intros; by apply not_differs_in_own).
    rewrite filter_cons_False; [done|].
    intros (g & Hg & Hpath & _)%Exists_exists. apply Hfresh.
    apply list_elem_of_fmap. by exists g.
  - apply filter_none. intros f Hin. apply not_differs_in_own.
    + by rewrite <- Hfiles.
    + apply elem_of_app. by left.
Qed.

(** Removing a tracked file: with the tree after as [mine] and the tree
    before as [theirs], the diff reports exactly that entry as deleted and
    nothing else; the other way round, exactly that entry as added. *)
Theorem removed_file_is_the_difference (filePath : string) (d : FileData) (t : MerkleTree) :
  leaves_by_own_path t →
  getFile filePath t = Some d →
  let t' := (removeFile filePath t).2 in
  getDifferences t' t = {| added := []; modified := []; deleted := [d] |}
  ∧ getDifferences t t' = {| added := [d]; modified := []; deleted := [] |}.
Proof.
  intros Hown Hsome t'.
  unfold getFile in Hsome.
  destruct (map_get filePath (leaves t)) as [node|] eqn:Hget; [|done].
  destruct (map_get_split _ _ _ Hget) as (l1 & l2 & Hl & Hnotin1).
  pose proof (leaves_by_own_path_unique t Hown) as Hnd. unfold paths_unique in Hnd.
  pose proof (paths_are_keys t Hown) as Hkeys.
  assert (getAllFiles t
          = (getAllFiles (mkTree None l1) ++ d :: getAllFiles (mkTree None l2))%list)
    as Hfiles.
  { rewrite (getAllFiles_leaves t), Hl. by apply files_around. }
  assert (leaves t' = (l1 ++ l2)%list) as Hleaves.
  { subst t'. unfold removeFile.
    assert (map_has filePath (leaves t) = true) as ->.
    { unfold map_has. rewrite Hget. apply bool_decide_eq_true_2. eauto. }
    cbn [snd]. rewrite leaves_rebuildTree. cbn [leaves]. rewrite Hl.
    by apply map_delete_split. }
  assert (getAllFiles t'
          = (getAllFiles (mkTree None l1) ++ getAllFiles (mkTree None l2))%list)
    as Hfiles'.
  { rewrite (getAllFiles_leaves t'), Hleaves. apply getAllFiles_app. }
  set (A1 := getAllFiles (mkTree None l1)) in *.
  set (A2 := getAllFiles (mkTree None l2)) in *.
  assert (file_path d = filePath) as Hpath.
  { destruct Hown as [_ Hall]. apply map_get_Some_elem in Hget.
    destruct (proj1 (Forall_forall _ _) Hall _ Hget) as (d0 & Hd0 & Hk).
    cbn in *. congruence. }
  rewrite Hfiles, fmap_app, fmap_cons in Hnd.
  apply NoDup_app in Hnd as (Hnd1 & Hdisj & [Hd2 Hnd2]%NoDup_cons).
  assert (file_path d ∉ file_path <$> (A1 ++ A2)) as Hgone.
  { rewrite fmap_app. intros [Hin|Hin]%elem_of_app; [|done].
    apply (Hdisj _ Hin). by left. }
  assert (NoDup (file_path <$> (A1 ++ A2))) as Hnd'.
  { rewrite fmap_app. apply NoDup_app. split; [done|]. split; [|done].
    intros x Hx Hx2. apply (Hdisj _ Hx). by right. }
  assert (NoDup (file_path <$> (A1 ++ d :: A2))) as HndT.
  { rewrite fmap_app, fmap_cons. apply NoDup_app. split; [done|]. split; [done|].
    by apply NoDup_cons. }
  assert (∀ f, f ∈ A1 ++ A2 → f ∈ A1 ++ d :: A2) as Hsub.
  { intros f [?|?]%elem_of_app; apply elem_of_app; [by left | right; by right]. }
  assert (filter (absent_from (A1 ++ A2)) (A1 ++ d :: A2) = [d]) as Honly.
  { rewrite filter_app, filter_cons_True by done.
    rewrite !filter_none; [done | |];
      intros f Hin; apply present_not_absent, elem_of_app; [by right | by left]. }
  assert (filter (absent_from (A1 ++ d :: A2)) (A1 ++ A2) = []) as Hnone.
  { apply filter_none. intros f Hin. by apply present_not_absent, Hsub. }
  rewrite !getDifferences_filters; unfold paths_unique; rewrite ?Hfiles, ?Hfiles'; try done.
  rewrite Honly, Hnone. split; f_equal.
  - apply filter_none. intros f Hin. apply (not_differs_in_own _ f HndT).
    by apply Hsub.
  - apply filter_none. intros f Hin (g & Hg & Hp & Hne)%Exists_exists.
    apply Hsub in Hg.
    apply (not_differs_in_own (A1 ++ d :: A2) f HndT Hin).
    apply Exists_exists. by exists g.
Qed.

Lemma same_path_same_file (l : list FileData) f g :
  NoDup (file_path <$> l) → f ∈ l → g ∈ l → file_path g = file_path f → g = f.
Proof.
  intros Hnd Hf Hg Hpath.
  assert (map_get (file_path f) (keyed l) = Some g) as H1 by (by apply map_get_keyed_Some).
  assert (map_get (file_path f) (keyed l) = Some f) as H2 by (by apply map_get_keyed_Some).
  congruence.
Qed.

(** Updating a tracked file: against the tree before, nothing is added or
    deleted, and the entry is reported as modified exactly when the new
    content hash differs from the old one or the time of the update is not
    the old timestamp: an update with the same content at a later time is
    reported as modified. *)
Theorem updated_file_is_modified (filePath : string) (metadata : Metadata)
    (now : string) (d : FileData) (t : MerkleTree) :
  leaves_by_own_path t →
  getFile filePath t = Some d →
  m_file_path metadata = None ∨ m_file_path metadata = Some filePath →
  let t' := addOrUpdateFile filePath metadata now t in
  ∃ d', getFile filePath t' = Some d'
        ∧ hash d' = m_hash metadata
        ∧ timestamp d' = JString now
        ∧ getDifferences t' t
          = {| added := [];
               modified := if decide (m_hash metadata ≠ hash d ∨ JString now ≠ timestamp d)
                           then [d'] else [];
               deleted := [] |}.
Proof.
  intros Hown Hsome Hmeta t'.
  unfold getFile in Hsome.
  destruct (map_get filePath (leaves t)) as [node|] eqn:Hget; [|done].
  destruct (map_get_split _ _ _ Hget) as (l1 & l2 & Hl & Hnotin1).
  pose proof (leaves_by_own_path_unique t Hown) as Hnd. unfold paths_unique in Hnd.
  assert (file_path d = filePath) as Hpath.
  { destruct Hown as [_ Hall]. apply map_get_Some_elem in Hget.
    destruct (proj1 (Forall_forall _ _) Hall _ Hget) as (d0 & Hd0 & Hk).
    cbn in *. congruence. }
  set (d' := spread_update (Some d) filePath metadata now).
  assert (file_path d' = filePath) as Hpath'.
  { subst d'. unfold spread_update. cbn [file_path]. by destruct Hmeta as [-> | ->]. }
  assert (getAllFiles t
          = getAllFiles (mkTree None l1) ++ d :: getAllFiles (mkTree None l2)) as Hfiles.
  { rewrite (getAllFiles_leaves t), Hl. by apply files_around. }
  assert (∃ node', data node' = Some d' ∧ leaves t' = l1 ++ (filePath, node') :: l2)
    as (node' & Hd' & Hleaves).
  { subst t'. unfold addOrUpdateFile. rewrite Hget, leaves_rebuildTree. cbn [leaves].
    rewrite Hsome. eexists. split; [|rewrite Hl; by apply map_set_split]. done. }
  assert (getAllFiles t'
          = getAllFiles (mkTree None l1) ++ d' :: getAllFiles (mkTree None l2)) as Hfiles'.
  { rewrite (getAllFiles_leaves t'), Hleaves. by apply files_around. }
  set (A1 := getAllFiles (mkTree None l1)) in *.
  set (A2 := getAllFiles (mkTree None l2)) in *.
  assert (file_path <$> (A1 ++ d' :: A2) = file_path <$> (A1 ++ d :: A2)) as Hsame.
  { rewrite !fmap_app, !fmap_cons. congruence. }
  rewrite Hfiles in Hnd.
  assert (∀ f, f ∈ A1 ++ A2 → ¬ differs_in (A1 ++ d :: A2) f) as Hrest.
  { intros f Hin. apply not_differs_in_own; [done|].
    apply elem_of_app in Hin as [?|?]; apply elem_of_app; [by left | right; by right]. }
  exists d'. split.
  { unfold getFile. rewrite Hleaves, map_get_app_notin by done. cbn.
    by rewrite decide_True. }
  split; [done|]. split; [done|].
  rewrite getDifferences_filters; unfold paths_unique; rewrite ?Hfiles, ?Hfiles';
    [| by rewrite Hsame | done].
  f_equal.
  - apply filter_none. intros f Hin Habs. apply Habs. rewrite <- Hsame.
    apply list_elem_of_fmap. by exists f.
  - rewrite filter_app, filter_cons.
    rewrite !filter_none;
      [| intros f Hin; apply Hrest, elem_of_app; by right
       | intros f Hin; apply Hrest, elem_of_app; by left ].
    assert (differs_in (A1 ++ d :: A2) d'
            ↔ m_hash metadata ≠ hash d ∨ JString now ≠ timestamp d) as Hiff.
    { split.
      - intros (g & Hg & Hp & Hne)%Exists_exists.
        assert (g = d) as ->.
        { apply (same_path_same_file (A1 ++ d :: A2)); [done | | done | congruence].
          apply elem_of_app. right. by left. }
        done.
      - intros Hne. apply Exists_exists. exists d. split; [|split; [congruence | done]].
        apply elem_of_app. right. by left. }
    destruct (decide (differs_in (A1 ++ d :: A2) d')) as [Hy|Hn];
      destruct (decide (m_hash metadata ≠ hash d ∨ JString now ≠ timestamp d));
      try done; tauto.
  - apply filter_none. intros f Hin Habs. apply Habs. rewrite Hsame.
    apply list_elem_of_fmap. by exists f.
Qed.

End OneChange.

(** ** The change detector and the upload queue *)

Section WatcherMore.
Context `{Crypto} `{PathLib} `{PathDir} `{Config}.
Import FileWatcher UploadScheduler.
Local Open Scope list_scope.

(** What a create or modify event does in a state that has a record of a
    recent download for the path and is not downloading it. *)
Lemma handleFileChange_recent filePath eventType w c rd :
  is_add_or_change eventType = true →
  path_relative WATCH_DIRECTORY filePath ∉ downloadingFiles c →
  recentlyDownloaded c !! path_relative WATCH_DIRECTORY filePath = Some rd →
  (calculateFileHash (fs c) filePath = rd_hash rd →
     handleFileChange filePath eventType w c = c)
  ∧ (calculateFileHash (fs c) filePath ≠ rd_hash rd →
     shouldIgnoreFile filePath = false →
     is_Some (map_get (path_relative WATCH_DIRECTORY filePath)
                (uploadQueue (handleFileChange filePath eventType w c)))).
Proof.
  intros Hev Hdl Hrd. unfold handleFileChange.
  rewrite (bool_decide_eq_false_2 _ Hdl), Hev, Hrd. split.
  - intros ->. rewrite bool_decide_eq_true_2 by done.
    by destruct (shouldIgnoreFile filePath).
  - intros Hne ->. rewrite bool_decide_eq_false_2 by done.
    unfold queueUpload. cbn [uploadQueue]. rewrite map_get_set_eq. eauto.
Qed.

(** An event of any kind, a deletion too, for a file that is being
    downloaded or that the ignore patterns match changes nothing. *)
Theorem events_dropped_while_downloading (filePath : string) (eventType : EventType)
    (w : Ambient) (disk : gmap string string) (c : Client) :
  handleFileChange filePath eventType w
    (set_fs disk (markAsDownloading (path_relative WATCH_DIRECTORY filePath) c))
  = set_fs disk (markAsDownloading (path_relative WATCH_DIRECTORY filePath) c)
  ∧ (shouldIgnoreFile filePath = true → handleFileChange filePath eventType w c = c).
Proof.
  unfold handleFileChange. split.
  - destruct (shouldIgnoreFile filePath); [done|].
    rewrite bool_decide_eq_true_2; [done|].
    cbn [downloadingFiles set_fs markAsDownloading]. set_solver.
  - by intros ->.
Qed.

(** A deletion event of a file that is neither ignored nor being
    downloaded: the path leaves the tree, the tree is saved, the server is
    asked to delete by the content hash the tree had for the path (not at all
    when the tree had none) and is then sent the tree; the upload queue and
    the timers are not touched, so an upload queued for the file stays
    queued. *)
Theorem unlink_event_effect (filePath : string) (w : Ambient) (c : Client) :
  shouldIgnoreFile filePath = false →
  path_relative WATCH_DIRECTORY filePath ∉ downloadingFiles c →
  NoDup (map_keys (ClientMerkle.leaves (merkleTree c))) →
  let relPath := path_relative WATCH_DIRECTORY filePath in
  let c' := handleFileChange filePath Unlink w c in
  ClientMerkle.getFile relPath (merkleTree c') = None
  ∧ treeFile c' = Some (ClientMerkle.toJSON (now_iso w) (merkleTree c'))
  ∧ uploadQueue c' = uploadQueue c
  ∧ timers c' = timers c
  ∧ requests c'
    = requests c
      ++ match ClientMerkle.getFile relPath (merkleTree c) with
         | Some fileInfo =>
             if negb (String.eqb (hash fileInfo) EmptyString)
             then [DeleteFileByHash (hash fileInfo)] else []
         | None => []
         end
      ++ [UpdateMerkleTree DEVICE_ID (ClientMerkle.toJSON (now_iso w) (merkleTree c'))].
Proof.
  intros Hign Hdl Hnd relPath c'. subst c'. unfold handleFileChange.
  rewrite Hign, (bool_decide_eq_false_2 _ Hdl). cbn [is_add_or_change].
  fold relPath. unfold handleLocalDeletion.
  destruct (ClientMerkle.getFile relPath (merkleTree c)) as [fileInfo|] eqn:Hfile.
  - destruct (negb (String.eqb (hash fileInfo) EmptyString));
      cbn [send saveMerkleTree set_merkleTree merkleTree treeFile uploadQueue timers requests].
    + pose proof (removeFile_gone relPath (merkleTree c) Hnd) as Hgone.
      split; [done|]. split; [done|]. split; [done|]. split; [done|].
      by rewrite <- !app_assoc.
    + pose proof (removeFile_gone relPath (merkleTree c) Hnd) as Hgone.
      split; [done|]. split; [done|]. split; [done|]. split; [done|]. done.
  - cbn [send saveMerkleTree set_merkleTree merkleTree treeFile uploadQueue timers requests].
    pose proof (removeFile_gone relPath (merkleTree c) Hnd) as Hgone.
    split; [done|]. split; [done|]. split; [done|]. split; [done|]. done.
Qed.

End WatcherMore.

(** ** The drain of the upload queue *)

Section Drain.
Context `{Crypto} `{PathLib} `{PathDir} `{Config}.
Import FileWatcher Sync UploadScheduler.
Local Open Scope list_scope.

Lemma skips_frame c c' relPath fileInfo :
  drain_frame c c' → skips c' relPath fileInfo = skips c relPath fileInfo.
Proof. intros (Hfs & Hrd & _). unfold skips. by rewrite Hfs, Hrd. Qed.

Lemma process_item_step api w acc entry :
  drain_frame acc.1 (process_item api w acc entry).1
  ∧ (process_item api w acc entry).2
    = acc.2 ++ (if skips acc.1 entry.1 entry.2 then []
                else [upload_request entry.1 entry.2]).
Proof.
  unfold process_item, drain_frame.
  destruct (skips acc.1 entry.1 entry.2).
  - by rewrite app_nil_r.
  - destruct (api_uploadFile api _ _) as [|s3Url]; [done|].
    destruct s3Url as [| |url]; cbn [fst snd]; [done..|].
    destruct (truthy (JString url)); done.
Qed.

Lemma drain_fold api w files acc :
  drain_frame acc.1 (foldl (process_item api w) acc files).1
  ∧ (foldl (process_item api w) acc files).2
    = acc.2 ++ ((λ e, upload_request e.1 e.2)
                  <$> filter (λ e, skips acc.1 e.1 e.2 = false) files).
Proof.
  revert acc. induction files as [|e files IH]; intros acc.
  - cbn. split; [done | by rewrite app_nil_r].
  - cbn [foldl]. destruct (IH (process_item api w acc e)) as [Hframe Hups].
    destruct (process_item_step api w acc e) as [Hframe1 Hups1].
    split.
    + destruct Hframe as (? & ? & ? & ? & ? & ?).
      destruct Hframe1 as (? & ? & ? & ? & ? & ?).
      repeat split; congruence.
    + rewrite Hups, Hups1.
      assert (filter (λ e0, skips (process_item api w acc e).1 e0.1 e0.2 = false) files
              = filter (λ e0, skips acc.1 e0.1 e0.2 = false) files) as ->.
      { apply list_filter_iff. intros x. by rewrite (skips_frame _ _ _ _ Hframe1). }
      rewrite filter_cons. destruct (skips acc.1 e.1 e.2) eqn:Hskip.
      * rewrite decide_False by done. by rewrite app_nil_r.
      * rewrite decide_True by done. rewrite fmap_cons, <- app_assoc. done.
Qed.


(** A drain empties the queue and ends with the busy flag down; it
    requests an upload, in the order of the queue, for exactly the queued
    files that still exist and are not what a recent download wrote; the
    directory and the loop-prevention records are as before. *)
Theorem processUploadQueue_drains (api : UploadApi) (w : Ambient) (c : Client) :
  isProcessing c = false →
  uploadQueue c ≠ [] →
  let after := (processUploadQueue api w c).1 in
  uploadQueue after = []
  ∧ isProcessing after = false
  ∧ (processUploadQueue api w c).2
    = (λ e, upload_request e.1 e.2)
        <$> filter (λ e, skips c e.1 e.2 = false) (uploadQueue c)
  ∧ fs after = fs c
  ∧ recentlyDownloaded after = recentlyDownloaded c
  ∧ downloadingFiles after = downloadingFiles c.
Proof.
  intros Hp Hq after. subst after. unfold processUploadQueue. rewrite Hp.
  destruct (uploadQueue c) as [|e q] eqn:Hqueue; [done|].
  cbn [orb length bool_decide]. rewrite bool_decide_eq_false_2 by done.
  destruct (drain_fold api w (e :: q) (clear_uploadQueue (set_isProcessing true c), []))
    as [(Hfs & Hrd & Hdl & Hup & _ & _) Hups].
  cbn [fst snd set_isProcessing clear_uploadQueue uploadQueue isProcessing fs
       recentlyDownloaded downloadingFiles] in *.
  rewrite Hup, Hups, Hfs, Hrd, Hdl. done.
Qed.

Lemma change_event_queues filePath w c :
  shouldIgnoreFile filePath = false →
  path_relative WATCH_DIRECTORY filePath ∉ downloadingFiles c →
  recentlyDownloaded c !! path_relative WATCH_DIRECTORY filePath = None →
  let c' := handleFileChange filePath Change w c in
  downloadingFiles c' = downloadingFiles c
  ∧ recentlyDownloaded c' = recentlyDownloaded c
  ∧ isProcessing c' = isProcessing c
  ∧ fs c' = fs c
  ∧ ∃ item, fullPath item = filePath
            ∧ uploadQueue c'
              = map_set (path_relative WATCH_DIRECTORY filePath) item (uploadQueue c).
Proof.
  intros Hign Hdl Hrd c'. subst c'. unfold handleFileChange.
  rewrite Hign, (bool_decide_eq_false_2 _ Hdl), Hrd. cbn [is_add_or_change].
  match goal with |- context [queueUpload _ _ _ ?x] => set (c1 := x) end.
  assert (downloadingFiles c1 = downloadingFiles c
          ∧ recentlyDownloaded c1 = recentlyDownloaded c
          ∧ isProcessing c1 = isProcessing c ∧ fs c1 = fs c
          ∧ uploadQueue c1 = uploadQueue c) as (Ha & Hb & Hc & Hd & He).
  { subst c1. destruct (calculateFileHash (fs c) filePath) as [h|];
      destruct (fs c !! filePath) as [buf|];
      try destruct (negb (String.eqb h EmptyString)); done. }
  unfold queueUpload. cbn [downloadingFiles recentlyDownloaded isProcessing fs uploadQueue].
  rewrite He. repeat (split; [done|]). eexists. split; [|done]. done.
Qed.

(** Coalescing: any number of modify events for one file (not ignored, not
    being downloaded, no recent download of it), arriving on an empty queue
    with whatever content the file has at each of them, leave one entry in
    the queue, and the next drain requests exactly one upload of that file. *)
Theorem rapid_events_give_one_upload (filePath : string)
    (events : list (gmap string string * Ambient)) (api : UploadApi) (w : Ambient)
    (c : Client) :
  shouldIgnoreFile filePath = false →
  path_relative WATCH_DIRECTORY filePath ∉ downloadingFiles c →
  recentlyDownloaded c !! path_relative WATCH_DIRECTORY filePath = None →
  uploadQueue c = [] →
  isProcessing c = false →
  events ≠ [] →
  is_Some (fs (after_events filePath events c) !! filePath) →
  map_keys (uploadQueue (after_events filePath events c))
  = [path_relative WATCH_DIRECTORY filePath]
  ∧ (processUploadQueue api w (after_events filePath events c)).2
    = [ {| up_fullPath := filePath;
           up_remotePath :=
             if String.eqb (path_dirname (path_relative WATCH_DIRECTORY filePath)) "."
             then "/" else path_dirname (path_relative WATCH_DIRECTORY filePath) |} ].
Proof.
  intros Hign Hdl Hrd Hq Hp Hev Hexists.
  set (rel := path_relative WATCH_DIRECTORY filePath) in *.
  assert (∀ evs c0,
            rel ∉ downloadingFiles c0 → recentlyDownloaded c0 !! rel = None →
            isProcessing c0 = false →
            (uploadQueue c0 = []
             ∨ (∃ item, fullPath item = filePath ∧ uploadQueue c0 = [(rel, item)])) →
            let c1 := after_events filePath evs c0 in
            (rel ∉ downloadingFiles c1) ∧ recentlyDownloaded c1 !! rel = None
            ∧ isProcessing c1 = false
            ∧ ((evs = [] ∧ c1 = c0)
               ∨ (∃ item, fullPath item = filePath ∧ uploadQueue c1 = [(rel, item)])))
    as Hinv.
  { induction evs as [|[disk w0] evs IH]; intros c0 Ja Jb Jc Jd.
    - cbn. repeat (split; [done|]). by left.
    - cbn [after_events foldl fst snd].
      destruct (change_event_queues filePath w0 (set_fs disk c0) Hign Ja Jb)
        as (Ha & Hb & Hc & _ & item & Hfull & Hqueue).
      cbn [set_fs downloadingFiles recentlyDownloaded isProcessing uploadQueue] in *.
      fold rel in Hqueue.
      set (c1 := handleFileChange filePath Change w0 (set_fs disk c0)) in *.
      assert (uploadQueue c1 = [(rel, item)]) as Hone.
      { rewrite Hqueue. destruct Jd as [-> | (old & _ & ->)]; cbn.
        - done.
        - by rewrite decide_True. }
      destruct (IH c1) as (I1 & I2 & I3 & I4).
      + by rewrite Ha.
      + by rewrite Hb.
      + by rewrite Hc.
      + right. by exists item.
      + repeat (split; [done|]). right.
        destruct I4 as [[-> _] | ?]; [|done].
        exists item. split; [done | exact Hone]. }
  destruct (Hinv events c Hdl Hrd Hp (or_introl Hq))
    as (I1 & I2 & I3 & [[-> _] | (item & Hfull & Hone)]); [done|].
  split; [by rewrite Hone|].
  set (c1 := after_events filePath events c) in *.
  assert (skips c1 rel item = false) as Hskip.
  { unfold skips. rewrite Hfull, I2. rewrite bool_decide_eq_true_2 by done. done. }
  unfold processUploadQueue. rewrite I3, Hone. cbn [orb length bool_decide].
  rewrite bool_decide_eq_false_2 by done.
  destruct (drain_fold api w [(rel, item)] (clear_uploadQueue (set_isProcessing true c1), []))
    as [_ Hups].
  cbn [fst snd] in *. rewrite Hups.
  rewrite filter_cons_True by done. cbn.
  unfold upload_request. cbn. by rewrite Hfull.
Qed.

End Drain.

(** ** The sync cycle and the change detector together *)

Section SyncMore.
Context `{Crypto} `{PathLib} `{PathDir} `{Config}.
Import FileWatcher Sync.
Local Open Scope list_scope.

Lemma download_returns fileMetadata srv w c content :
  calculateFileHash (fs c) (path_join WATCH_DIRECTORY (file_path fileMetadata))
  ≠ Some (hash fileMetadata) →
  truthy (file_id fileMetadata) = true →
  api_downloadFile srv (file_id fileMetadata) = Returns content →
  let localPath := path_join WATCH_DIRECTORY (file_path fileMetadata) in
  let relPath := path_relative WATCH_DIRECTORY localPath in
  let c' := downloadFileFromServer fileMetadata srv w c in
  fs c' = <[localPath := content]> (fs c)
  ∧ recentlyDownloaded c' !! relPath
    = Some {| rd_hash := Some (hash fileMetadata); rd_timestamp := now_ms w |}
  ∧ (relPath ∉ downloadingFiles c')
  ∧ uploadQueue c' = uploadQueue c.
Proof.
  intros Hdiff Hid Hdl localPath relPath c'. subst c'.
  unfold downloadFileFromServer. fold localPath. fold relPath.
  rewrite (bool_decide_eq_false_2 (_ = _)) by done. rewrite andb_false_r, Hid, Hdl.
  split; [done|]. split; [apply markDownloadComplete_record|].
  split; [apply markDownloadComplete_record | done].
Qed.

(** Loop prevention end to end: after a download whose bytes have the
    declared hash, the create or modify event that the write causes changes
    nothing (no upload is queued); when the bytes do not have the declared
    hash and the file is not ignored, the event queues them for upload. *)
Theorem download_then_event (fileMetadata : FileData) (srv : Server) (w w' : Ambient)
    (c : Client) (content : string) (eventType : EventType) :
  calculateFileHash (fs c) (path_join WATCH_DIRECTORY (file_path fileMetadata))
  ≠ Some (hash fileMetadata) →
  truthy (file_id fileMetadata) = true →
  api_downloadFile srv (file_id fileMetadata) = Returns content →
  is_add_or_change eventType = true →
  let localPath := path_join WATCH_DIRECTORY (file_path fileMetadata) in
  let c' := downloadFileFromServer fileMetadata srv w c in
  (sha256_hex content = hash fileMetadata →
     handleFileChange localPath eventType w' c' = c')
  ∧ (sha256_hex content ≠ hash fileMetadata →
     shouldIgnoreFile localPath = false →
     is_Some (map_get (path_relative WATCH_DIRECTORY localPath)
                (uploadQueue (handleFileChange localPath eventType w' c')))).
Proof.
  intros Hdiff Hid Hdl Hev localPath c'.
  destruct (download_returns fileMetadata srv w c content Hdiff Hid Hdl)
    as (Hfs & Hrec & Hnotdl & _).
  fold localPath in Hfs, Hrec, Hnotdl. fold c' in Hfs, Hrec, Hnotdl.
  destruct (handleFileChange_recent localPath eventType w' c' _ Hev Hnotdl Hrec)
    as [Hsame Hother].
  assert (calculateFileHash (fs c') localPath = Some (sha256_hex content)) as Hhash.
  { unfold calculateFileHash. by rewrite Hfs, lookup_insert_eq. }
  cbn [rd_hash] in *. split.
  - intros Heq. apply Hsame. by rewrite Hhash, Heq.
  - intros Hne Hign. apply Hother; [|done]. rewrite Hhash. congruence.
Qed.

Lemma downloadFileFromServer_marks fileMetadata srv w c :
  truthy (file_id fileMetadata) = true →
  downloadingFiles (downloadFileFromServer fileMetadata srv w c) ⊆ downloadingFiles c.
Proof.
  intros Hid. unfold downloadFileFromServer.
  destruct (_ && _); [done|]. rewrite Hid.
  destruct (api_downloadFile srv (file_id fileMetadata));
    cbn [downloadingFiles markDownloadComplete set_merkleTree write_file send
         markAsDownloading];
    intros x [[Hx%elem_of_singleton | Hx]%elem_of_union Hnx%not_elem_of_singleton]%elem_of_difference;
    done.
Qed.

(** A sync cycle never leaves a path marked as being downloaded: whatever
    the answer of the server and the outcome of each download, the paths
    marked after the cycle were marked before it. *)
Theorem sync_cycle_leaves_no_download_mark (result : Outcome (option Differences))
    (srv : Server) (w : Ambient) (c : Client) :
  downloadingFiles (performSync_continue result srv w c) ⊆ downloadingFiles c.
Proof.
  unfold performSync_continue.
  destruct result as [|[d|]]; [done| |done].
  cbn [set_lastSyncAt downloadingFiles].
  destruct (_ || _); [|done]. cbn [saveMerkleTree downloadingFiles].
  assert (∀ l c0, downloadingFiles
                    (foldl (λ c1 file, handleServerDeletion file c1) c0 l)
                  = downloadingFiles c0) as Hdel.
  { induction l as [|f l IH]; intros c0; [done|]. cbn [foldl]. rewrite IH.
    unfold handleServerDeletion. by destruct (bool_decide _). }
  rewrite Hdel.
  generalize (added d ++ modified d). intros l. revert c.
  induction l as [|f l IH]; intros c; [done|].
  cbn [foldl]. etrans; [apply IH|].
  destruct (truthy (s3_url f) && truthy (file_id f)) eqn:Hguard; [|done].
  apply andb_true_iff in Hguard as [_ Hid]. by apply downloadFileFromServer_marks.
Qed.

(** Called with an entry that has no id (which [performSync] never does)
    and whose file is not already there with the declared hash,
    [downloadFileFromServer] returns with the path still marked as being
    downloaded: every later event for that file is dropped. *)
Theorem download_without_id_blocks_path (fileMetadata : FileData) (srv : Server)
    (w w' : Ambient) (c : Client) (eventType : EventType) (disk : gmap string string) :
  truthy (file_id fileMetadata) = false →
  calculateFileHash (fs c) (path_join WATCH_DIRECTORY (file_path fileMetadata))
  ≠ Some (hash fileMetadata) →
  let localPath := path_join WATCH_DIRECTORY (file_path fileMetadata) in
  let c' := downloadFileFromServer fileMetadata srv w c in
  path_relative WATCH_DIRECTORY localPath ∈ downloadingFiles c'
  ∧ merkleTree c' = merkleTree c
  ∧ handleFileChange localPath eventType w' (set_fs disk c') = set_fs disk c'.
Proof.
  intros Hid Hdiff localPath c'. subst c'. unfold downloadFileFromServer.
  fold localPath. rewrite (bool_decide_eq_false_2 (_ = _)) by done.
  rewrite andb_false_r, Hid.
  assert (path_relative WATCH_DIRECTORY localPath
          ∈ downloadingFiles (markAsDownloading (path_relative WATCH_DIRECTORY localPath) c))
    as Hin by (cbn; apply elem_of_union; left; by apply elem_of_singleton).
  split; [done|]. split; [done|].
  unfold handleFileChange. destruct (shouldIgnoreFile localPath); [done|].
  by rewrite bool_decide_eq_true_2.
Qed.

(** A cycle without work: when the request for the differences fails or
    its answer has no differences, nothing changes, not even the time of the
    last sync; when all three lists are empty only that time is set and the
    tree is not saved. *)
Lemma sync_cycle_without_work (srv : Server) (w : Ambient) (c : Client) :
  performSync_continue Throws srv w c = c
  ∧ performSync_continue (Returns None) srv w c = c
  ∧ performSync_continue (Returns (Some no_differences)) srv w c
    = set_lastSyncAt (now_iso w) c.
Proof. done. Qed.











End SyncMore.

(** ** The stored trees of the server *)

Section TreeRoutes.
Import ServerMerkle MerkleRoutes.
Local Open Scope list_scope.

Lemma is_for_spec userId deviceId r :
  is_for userId deviceId r = true ↔ st_user_id r = userId ∧ st_device_id r = deviceId.
Proof.
  unfold is_for. rewrite andb_true_iff, !String.eqb_eq. done.
Qed.

Lemma select_tree_fmap (g : StoredTree → StoredTree) userId deviceId table :
  (∀ r, st_user_id (g r) = st_user_id r ∧ st_device_id (g r) = st_device_id r) →
  select_tree userId deviceId (g <$> table) = g <$> select_tree userId deviceId table.
Proof.
  intros Hg. unfold select_tree. induction table as [|r table IH]; [done|].
  cbn [fmap list_fmap]. rewrite !filter_cons, IH.
  assert (is_for userId deviceId (g r) = is_for userId deviceId r) as Heq.
  { unfold is_for. by destruct (Hg r) as [-> ->]. }
  rewrite Heq. by destruct (decide (is_for userId deviceId r = true)).
Qed.

Lemma select_tree_fmap_other (g : StoredTree → StoredTree) userId deviceId table :
  (∀ r, is_for userId deviceId r = false → g r = r ∨ is_for userId deviceId (g r) = false) →
  (∀ r, is_for userId deviceId r = true → g r = r) →
  select_tree userId deviceId (g <$> table) = select_tree userId deviceId table.
Proof.
  intros Hout Hin. unfold select_tree. induction table as [|r table IH]; [done|].
  cbn [fmap list_fmap]. rewrite !filter_cons, IH.
  destruct (is_for userId deviceId r) eqn:Hr.
  - by rewrite (Hin r Hr), Hr.
  - destruct (Hout r Hr) as [-> | Hg]; [by rewrite Hr|].
    rewrite Hg. by rewrite !decide_False by done.
Qed.

Lemma select_tree_app userId deviceId (l1 l2 : list StoredTree) :
  select_tree userId deviceId (l1 ++ l2)
  = select_tree userId deviceId l1 ++ select_tree userId deviceId l2.
Proof. apply filter_app. Qed.

Lemma is_for_other userId deviceId userId' deviceId' r :
  (userId', deviceId') ≠ (userId, deviceId) →
  is_for userId deviceId r = true → is_for userId' deviceId' r = false.
Proof.
  intros Hne [Hu Hd]%is_for_spec. apply not_true_iff_false.
  intros [Hu' Hd']%is_for_spec. apply Hne. congruence.
Qed.

(** What [post_update] leaves in the table. *)
Lemma post_update_table userId deviceId treeData new_id now table :
  let previous := head (select_tree userId deviceId table) in
  let res := post_update userId deviceId treeData new_id now table in
  (∃ r rest, select_tree userId deviceId res.1 = r :: rest
     ∧ length (r :: rest) = Nat.max 1 (length (select_tree userId deviceId table))
     ∧ res.2 = Some (response_of r)
     ∧ st_row r = {| root_hash := rootHash treeData; tree_data := treeData;
                     version := match previous with
                                | Some p => (version (st_row p) + 1)%Z
                                | None => 1%Z
                                end |})
  ∧ (∀ userId' deviceId', (userId', deviceId') ≠ (userId, deviceId) →
       select_tree userId' deviceId' res.1 = select_tree userId' deviceId' table).
Proof.
  intros previous res. subst previous res. unfold post_update.
  destruct (select_tree userId deviceId table) as [|p rest] eqn:Hsel.
  - cbn [fst snd head]. split.
    + eexists _, []. rewrite select_tree_app, Hsel. cbn [app].
      unfold select_tree at 1. rewrite filter_cons, filter_nil.
      rewrite decide_True by (apply is_for_spec; done). done.
    + intros userId' deviceId' Hne. rewrite select_tree_app.
      unfold select_tree at 2. rewrite filter_cons, filter_nil.
      rewrite decide_False; [apply app_nil_r|].
      apply not_true_iff_false. eapply is_for_other; [done|]. by apply is_for_spec.
  - cbn [fst snd head].
    match goal with |- context [?g <$> table] => set (upd := g) end.
    assert (∀ r, st_user_id (upd r) = st_user_id r ∧ st_device_id (upd r) = st_device_id r)
      as Hids by (intros r; subst upd; cbn; by destruct (is_for userId deviceId r)).
    split.
    + rewrite select_tree_fmap, Hsel by done. cbn [fmap list_fmap head option_map].
      eexists _, _. split; [done|]. split.
      { cbn [length]. rewrite length_fmap. lia. }
      split; [done|].
      assert (is_for userId deviceId p = true) as Hp.
      { assert (p ∈ select_tree userId deviceId table) as Hin
          by (rewrite Hsel; apply elem_of_cons; by left).
        unfold select_tree in Hin. by apply list_elem_of_filter in Hin as [? _]. }
      subst upd. cbn. by rewrite Hp.
    + intros userId' deviceId' Hne. apply select_tree_fmap_other.
      * intros r _. subst upd. cbn.
        destruct (is_for userId deviceId r) eqn:Hr; [|by left].
        right. unfold is_for. cbn [st_user_id st_device_id].
        by apply (is_for_other userId deviceId userId' deviceId' r).
      * intros r Hr. subst upd. cbn.
        destruct (is_for userId deviceId r) eqn:Hr'; [|done].
        by rewrite (is_for_other userId' deviceId' userId deviceId r) in Hr'.
Qed.


(** [POST /update] keeps the table at one row at most for each user and
    device: it inserts only when it found no row. *)
Theorem post_update_keeps_one_row_per_device (userId deviceId : string)
    (treeData : TreeJSON) (new_id : string) (now : Z) (table : list StoredTree) :
  one_row_per_device table →
  one_row_per_device (post_update userId deviceId treeData new_id now table).1.
Proof.
  intros Hone userId' deviceId'.
  destruct (post_update_table userId deviceId treeData new_id now table)
    as [(r & rest & Hsel & Hlen & _) Hother].
  destruct (decide ((userId', deviceId') = (userId, deviceId))) as [[= -> ->] | Hne].
  - rewrite Hsel, Hlen. specialize (Hone userId deviceId). lia.
  - rewrite Hother by done. apply Hone.
Qed.



Lemma truthy_enrichFile b userId f :
  truthy (s3_url f) = true → truthy (s3_url (enrichFile b userId f)) = true.
Proof.
  intros Hurl. unfold enrichFile.
  destruct (select_active_by_hash b userId (hash f)) as [| |key id]; [done..|].
  cbn [s3_url]. destruct (generatePresignedUrl b key) as [u|]; [|done].
  by destruct (truthy (JString u)) eqn:Hu.
Qed.

(** Enriching never loses a file or a URL: the answer has the same files in
    the same order, each with its path, hash, size and timestamp; a file
    that had a URL still has one; a file gets an id exactly as the [files]
    table has an active row for its hash, and is returned as it is when
    there is none or the query fails. *)
Theorem enrichFilesWithFreshUrls_keeps (b : Backend) (fs : list FileData)
    (userId : string) :
  Forall2 (λ f g,
     file_path g = file_path f ∧ hash g = hash f ∧ size g = size f
     ∧ timestamp g = timestamp f ∧ filename g = filename f
     ∧ (truthy (s3_url f) = true → truthy (s3_url g) = true)
     ∧ match select_active_by_hash b userId (hash f) with
       | Row _ id => file_id g = JString id
       | NoRows | QueryThrows => g = f
       end)
    fs (enrichFilesWithFreshUrls b fs userId).
Proof.
  unfold enrichFilesWithFreshUrls. apply Forall2_fmap_r, Forall_Forall2_diag.
  apply Forall_forall. intros f _. unfold compose.
  pose proof (truthy_enrichFile b userId f) as Hurl. revert Hurl. unfold enrichFile.
  destruct (select_active_by_hash b userId (hash f)); intros Hurl; repeat split; auto.
Qed.

End TreeRoutes.

(** ** The file routes of the server *)

Section FileRoutesFacts.
Context `{Crypto} `{PathLib}.
Import Sync FilesRoutes.
Local Open Scope list_scope.

Lemma is_active_with_hash_spec userId fileHash r :
  is_active_with_hash userId fileHash r = true
  ↔ f_user_id r = userId ∧ f_file_hash r = fileHash ∧ f_status r = "active".
Proof.
  unfold is_active_with_hash. rewrite !andb_true_iff, !String.eqb_eq. tauto.
Qed.


Lemma set_local_url_active id localUrl userId fileHash r :
  is_active_with_hash userId fileHash (set_local_url id localUrl r)
  = is_active_with_hash userId fileHash r.
Proof. unfold set_local_url. by destruct (String.eqb (f_id r) id). Qed.

Lemma filter_fmap_same {A} (P : A → Prop) `{!∀ x, Decision (P x)} (g : A → A) (l : list A) :
  (∀ x, P (g x) ↔ P x) → filter P (g <$> l) = g <$> filter P l.
Proof.
  intros Hg. induction l as [|x l IH]; [done|].
  cbn [fmap list_fmap]. rewrite !filter_cons, IH.
  destruct (decide (P x)) as [Hx|Hx].
  - by rewrite decide_True by (by apply Hg).
  - by rewrite decide_False by (by rewrite Hg).
Qed.

Lemma active_rows_set_local_url id localUrl userId fileHash (l : list FileRow) :
  filter (λ r, is_active_with_hash userId fileHash r = true) (set_local_url id localUrl <$> l)
  = set_local_url id localUrl <$> filter (λ r, is_active_with_hash userId fileHash r = true) l.
Proof.
  apply filter_fmap_same. intros r. by rewrite set_local_url_active.
Qed.

(** What a successful first upload leaves in the store. *)
Lemma post_upload_created userId file filePath localUrl m fresh st st1 info :
  post_upload userId file filePath localUrl m fresh st = (st1, Uploaded201 info) →
  ∃ f r, file = Some f
    ∧ filter (λ r, is_active_with_hash userId (sha256_hex (buffer f)) r = true) (rows st) = []
    ∧ rows st1 = rows st ++ [r]
    ∧ objects st1 = <[f_minio_key r := buffer f]> (objects st)
    ∧ f_minio_key r = generatePermanentMinioKey userId (originalname f) (uuid fresh)
    ∧ f_user_id r = userId ∧ f_file_hash r = sha256_hex (buffer f)
    ∧ f_status r = "active" ∧ f_filename r = originalname f
    ∧ fi_id info = f_id r ∧ fi_filename info = originalname f.
Proof.
  unfold post_upload, calculateFileHash. destruct file as [f|]; [|done].
  destruct (filter _ (rows st)) as [|fileRecord rest] eqn:Hfilter.
  - destruct (putObject_ok m); [|done].
    destruct (presignedGetObject m _) as [|url]; [done|].
    intros [= <- <-]. eexists f, _. repeat split; done.
  - by destruct (presignedGetObject m _).
Qed.

(** Content is stored once for a user: after an upload that created a
    file, an upload of the same bytes by the same user, under whatever name
    and path, stores no row and no object; it is answered with the file
    created first, under its first name. *)
Theorem upload_same_content_twice (userId : string) (f f' : UploadedFile)
    (filePath filePath' : option string) (localUrl localUrl' : jsval) (m m' : Minio)
    (fresh fresh' : Fresh) (st st1 : Store) (info : FileInfo) (url' : string) :
  post_upload userId (Some f) filePath localUrl m fresh st = (st1, Uploaded201 info) →
  buffer f' = buffer f →
  presignedGetObject m' (generatePermanentMinioKey userId (originalname f) (uuid fresh))
  = Returns url' →
  ∃ st2 info',
    post_upload userId (Some f') filePath' localUrl' m' fresh' st1
    = (st2, AlreadyExists200 info')
    ∧ fi_id info' = fi_id info
    ∧ fi_filename info' = originalname f
    ∧ fi_s3Url info' = url'
    ∧ length (rows st2) = length (rows st1)
    ∧ objects st2 = objects st1.
Proof.
  intros Hfirst Hbytes Hurl.
  apply post_upload_created in Hfirst
    as (f0 & r & [= <-] & Hnone & Hrows & _ & Hkey & Huser & Hhash & Hstatus & Hname & Hid & _).
  unfold post_upload, calculateFileHash. rewrite Hbytes, Hrows, filter_app, Hnone.
  rewrite filter_cons, filter_nil.
  rewrite decide_True by (by apply is_active_with_hash_spec). cbn [app].
  assert (∀ v, f_minio_key (set_local_url (f_id r) v r) = f_minio_key r) as Hkeep.
  { intros v. unfold set_local_url. by destruct (String.eqb _ _). }
  destruct (truthy localUrl' && bool_decide (f_local_url r ≠ localUrl')).
  - rewrite Hkeep, Hkey, Hurl. eexists _, _. split; [done|].
    cbn [fi_id fi_filename fi_s3Url file_info rows objects].
    rewrite length_fmap. unfold set_local_url.
    by destruct (String.eqb (f_id r) (f_id r)).
  - rewrite Hkey, Hurl. eexists _, _. split; [done|].
    repeat split; cbn; rewrite ?Hrows; done.
Qed.

Lemma one_active_row_insert userId st r objs :
  one_active_row_per_hash st →
  filter (λ r', is_active_with_hash userId (f_file_hash r) r' = true) (rows st) = [] →
  f_user_id r = userId →
  one_active_row_per_hash (mkStore (rows st ++ [r]) objs).
Proof.
  intros Hone Hfilter Hu userId' fileHash'. cbn [rows].
  rewrite filter_app, filter_cons, filter_nil.
  destruct (decide (is_active_with_hash userId' fileHash' r = true)) as [Hr|Hr].
  - apply is_active_with_hash_spec in Hr as (Hu' & Hh & _).
    subst userId' fileHash'. rewrite Hu, Hfilter. cbn. lia.
  - rewrite app_nil_r. apply Hone.
Qed.

(** [POST /upload] keeps the table at one active row at most for each user
    and content hash, whatever the object store does. *)
Theorem post_upload_keeps_one_active_row (userId : string) (file : option UploadedFile)
    (filePath : option string) (localUrl : jsval) (m : Minio) (fresh : Fresh) (st : Store) :
  one_active_row_per_hash st →
  one_active_row_per_hash (post_upload userId file filePath localUrl m fresh st).1.
Proof.
  intros Hone. unfold post_upload, calculateFileHash. destruct file as [f|]; [|done].
  destruct (filter _ (rows st)) as [|fileRecord rest] eqn:Hfilter.
  - destruct (putObject_ok m); [|done].
    destruct (presignedGetObject m _); cbn [fst];
      by apply (one_active_row_insert userId).
  - assert (∀ st', (st' = st
                    ∨ st' = mkStore (set_local_url (f_id fileRecord) localUrl <$> rows st)
                              (objects st)) →
                   one_active_row_per_hash st') as Hboth.
    { intros st' [-> | ->]; [done|]. intros userId' fileHash'. cbn [rows].
      rewrite active_rows_set_local_url, length_fmap. apply Hone. }
    destruct (truthy localUrl && bool_decide (f_local_url fileRecord ≠ localUrl));
      destruct (presignedGetObject m _); apply Hboth; auto.
Qed.

Lemma active_rows_set_deleted id userId fileHash (l : list FileRow) :
  Forall (λ r, f_id r = id)
         (filter (λ r, is_active_with_hash userId fileHash r = true) l) →
  filter (λ r, is_active_with_hash userId fileHash r = true) (set_deleted id <$> l) = [].
Proof.
  induction l as [|r l IH]; [done|].
  cbn [fmap list_fmap]. rewrite !filter_cons. intros Hall.
  destruct (decide (is_active_with_hash userId fileHash r = true)) as [Hr|Hr].
  - apply Forall_cons in Hall as [Hid Hall]. rewrite (IH Hall).
    rewrite decide_False; [done|]. unfold set_deleted.
    apply String.eqb_eq in Hid. rewrite Hid.
    intros (_ & _ & Hst)%is_active_with_hash_spec. done.
  - rewrite (IH Hall). rewrite decide_False; [done|].
    intros Hact. apply Hr. unfold set_deleted in Hact.
    destruct (String.eqb (f_id r) id); [|done].
    apply is_active_with_hash_spec in Hact as (_ & _ & Hst). done.
Qed.

(** Deleting by content hash marks the row even when the object store
    refuses the removal: after a request that found the file, with at most
    one active row for that user and hash before, no active row is left for
    them (the same request again is answered 404), no row is removed from
    the table, and the object is still in the bucket when its removal
    failed. *)
Theorem delete_by_hash_effect (userId fileHash : string) (m m' : Minio) (st : Store)
    (id : string) :
  one_active_row_per_hash st →
  (delete_by_hash userId fileHash m st).2 = Deleted200 id →
  let st' := (delete_by_hash userId fileHash m st).1 in
  filter (λ r, is_active_with_hash userId fileHash r = true) (rows st') = []
  ∧ delete_by_hash userId fileHash m' st' = (st', FileNotFound404)
  ∧ length (rows st') = length (rows st)
  ∧ (removeObject_ok m = false → objects st' = objects st).
Proof.
  intros Hone Hans st'. subst st'. specialize (Hone userId fileHash).
  unfold delete_by_hash in *.
  destruct (filter _ (rows st)) as [|file rest] eqn:Hfilter; [done|].
  cbn [fst snd rows objects] in *.
  assert (rest = []) as -> by (destruct rest; [done | cbn in Hone; lia]).
  assert (filter (λ r, is_active_with_hash userId fileHash r = true)
            (set_deleted (f_id file) <$> rows st) = []) as Hgone.
  { apply active_rows_set_deleted. rewrite Hfilter. by repeat constructor. }
  split; [done|]. split; [unfold delete_by_hash; cbn [rows]; by rewrite Hgone|].
  split; [by rewrite length_fmap|]. by intros ->.
Qed.



End FileRoutesFacts.

(** ** The error handler *)

Section ErrorHandlerFacts.
Import ErrorHandler.

(** Outside development the answer to a failed request does not depend on
    the message of the error, and neither does its status in any
    environment. *)
Theorem errorHandler_hides_message (node_env : jsval) (err : AppError) (other : string) :
  let err' := {| isJoi := isJoi err; details := details err; code := code err;
                 message := other |} in
  status (errorHandler node_env err') = status (errorHandler node_env err)
  ∧ (node_env ≠ JString "development" →
     errorHandler node_env err' = errorHandler node_env err).
Proof.
  intros err'. subst err'. unfold errorHandler. cbn [isJoi details code message].
  destruct (isJoi err); [done|]. destruct (truthy (code err)); [done|].
  split; [done|]. intros Henv. by rewrite bool_decide_eq_false_2.
Qed.

End ErrorHandlerFacts.

(** ** The further properties at concrete inputs *)

Section MoreWitnesses.
Import Examples MoreExamples.
Local Open Scope list_scope.

Lemma tree_uploaded_built : built_by_callers tree_uploaded.
Proof.
  apply built_updateS3Url, built_addOrUpdateFile; [apply built_new | right; reflexivity].
Defined.

Lemma tree_detected_by_own_path : leaves_by_own_path tree_detected.
Proof.
  split.
  - refine (bool_decide_unpack _ _). vm_compute. exact I.
  - repeat constructor. eexists. split; reflexivity.
Defined.

Lemma tree_mine_by_own_path : leaves_by_own_path tree_mine.
Proof.
  split.
  - refine (bool_decide_unpack _ _). vm_compute. exact I.
  - repeat constructor; eexists; split; reflexivity.
Defined.

Lemma tree_mine_stored_as_is : Forall stored_as_is (ClientMerkle.getAllFiles tree_mine).
Proof.
  repeat constructor; solve [reflexivity | left; reflexivity | right; reflexivity].
Defined.

Lemma built_trees_root_up_to_date_witness :
  built_by_callers tree_uploaded ∧ root_up_to_date tree_uploaded.
Proof.
  split; [exact tree_uploaded_built|].
  exact (built_trees_root_up_to_date tree_uploaded tree_uploaded_built).
Defined.

Lemma rootHash_null_iff_no_file_witness :
  built_by_callers tree_uploaded
  ∧ (ClientMerkle.getRootHash tree_uploaded = None
     ↔ ClientMerkle.getAllFiles tree_uploaded = []).
Proof.
  split; [exact tree_uploaded_built|].
  exact (rootHash_null_iff_no_file tree_uploaded tree_uploaded_built).
Defined.

Lemma removeFile_effect_witness :
  NoDup (map_keys (ClientMerkle.leaves tree_mine))
  ∧ (ClientMerkle.removeFile "notes.txt" tree_mine).1 = true
  ∧ ClientMerkle.getFile "notes.txt" (ClientMerkle.removeFile "notes.txt" tree_mine).2 = None.
Proof.
  pose proof (proj1 tree_mine_by_own_path) as Hnd.
  destruct (removeFile_effect "notes.txt" tree_mine Hnd) as (Hret & Hgone & _).
  split; [exact Hnd|]. split; [|exact Hgone].
  rewrite Hret. vm_compute. reflexivity.
Defined.

Lemma updateS3Url_marks_uploaded_witness :
  leaves_by_own_path tree_detected
  ∧ ClientMerkle.isFileUploaded "notes.txt" tree_uploaded
    = JString "http://minio:9000/files/notes.txt"
  ∧ ∀ f, file_path f = "notes.txt" → f ∉ ClientMerkle.getPendingUploads tree_uploaded.
Proof.
  split; [exact tree_detected_by_own_path|].
  destruct (updateS3Url_marks_uploaded "notes.txt" "http://minio:9000/files/notes.txt" t1
              tree_detected tree_detected_by_own_path ltac:(discriminate)) as [Hthere _].
  destruct (Hthere ltac:(eexists; reflexivity)) as (_ & Hurl & _ & Hpending).
  split; [exact Hurl | exact Hpending].
Defined.

Lemma snapshot_round_trip_keeps_files_witness :
  leaves_by_own_path tree_mine
  ∧ Forall stored_as_is (ClientMerkle.getAllFiles tree_mine)
  ∧ ClientMerkle.getAllFiles
      (ClientMerkle.fromJSON (ClientMerkle.toJSON t1 tree_mine) t2 ClientMerkle.new_MerkleTree)
    = ClientMerkle.getAllFiles tree_mine.
Proof.
  split; [exact tree_mine_by_own_path|]. split; [exact tree_mine_stored_as_is|].
  exact (snapshot_round_trip_keeps_files tree_mine ClientMerkle.new_MerkleTree t1 t2
           tree_mine_by_own_path tree_mine_stored_as_is).
Defined.

Lemma reloaded_tree_has_no_differences_witness :
  leaves_by_own_path tree_mine
  ∧ Forall stored_as_is (ClientMerkle.getAllFiles tree_mine)
  ∧ ClientMerkle.getDifferences tree_mine
      (ClientMerkle.fromJSON (ClientMerkle.toJSON t1 tree_mine) t2 ClientMerkle.new_MerkleTree)
    = no_differences.
Proof.
  split; [exact tree_mine_by_own_path|]. split; [exact tree_mine_stored_as_is|].
  exact (proj1 (reloaded_tree_has_no_differences tree_mine ClientMerkle.new_MerkleTree t1 t2
                  tree_mine_by_own_path tree_mine_stored_as_is)).
Defined.

Lemma getDifferences_swap_witness :
  paths_unique tree_mine
  ∧ paths_unique tree_theirs
  ∧ added (ClientMerkle.getDifferences tree_mine tree_theirs)
    = deleted (ClientMerkle.getDifferences tree_theirs tree_mine).
Proof.
  assert (paths_unique tree_mine) as Hmine.
  { refine (bool_decide_unpack _ _). vm_compute. exact I. }
  assert (paths_unique tree_theirs) as Htheirs.
  { refine (bool_decide_unpack _ _). vm_compute. exact I. }
  split; [exact Hmine|]. split; [exact Htheirs|].
  exact (proj1 (getDifferences_swap tree_mine tree_theirs Hmine Htheirs)).
Defined.

Lemma new_tree_by_own_path : leaves_by_own_path ClientMerkle.new_MerkleTree.
Proof. split; constructor. Defined.

Lemma added_file_is_the_difference_witness :
  leaves_by_own_path ClientMerkle.new_MerkleTree
  ∧ ClientMerkle.getFile "notes.txt" ClientMerkle.new_MerkleTree = None
  ∧ ∃ d, ClientMerkle.getDifferences tree_detected ClientMerkle.new_MerkleTree
         = {| added := [d]; modified := []; deleted := [] |}.
Proof.
  split; [exact new_tree_by_own_path|]. split; [reflexivity|].
  destruct (added_file_is_the_difference "notes.txt" notes_metadata t0
              ClientMerkle.new_MerkleTree new_tree_by_own_path eq_refl)
    as (d & _ & _ & Hdiff & _).
  exists d. exact Hdiff.
Defined.

Lemma removed_file_is_the_difference_witness :
  leaves_by_own_path tree_detected
  ∧ ClientMerkle.getFile "notes.txt" tree_detected = Some detected_notes
  ∧ ClientMerkle.getDifferences (ClientMerkle.removeFile "notes.txt" tree_detected).2
      tree_detected
    = {| added := []; modified := []; deleted := [detected_notes] |}.
Proof.
  assert (ClientMerkle.getFile "notes.txt" tree_detected = Some detected_notes) as Hget
    by reflexivity.
  split; [exact tree_detected_by_own_path|]. split; [exact Hget|].
  exact (proj1 (removed_file_is_the_difference "notes.txt" detected_notes tree_detected
                  tree_detected_by_own_path Hget)).
Defined.

Lemma updated_file_is_modified_witness :
  leaves_by_own_path tree_detected
  ∧ ClientMerkle.getFile "notes.txt" tree_detected = Some detected_notes
  ∧ ∃ d', modified (ClientMerkle.getDifferences
                      (ClientMerkle.addOrUpdateFile "notes.txt" notes_metadata t1 tree_detected)
                      tree_detected)
          = [d'].
Proof.
  assert (ClientMerkle.getFile "notes.txt" tree_detected = Some detected_notes) as Hget
    by reflexivity.
  split; [exact tree_detected_by_own_path|]. split; [exact Hget|].
  destruct (updated_file_is_modified "notes.txt" notes_metadata t1 detected_notes
              tree_detected tree_detected_by_own_path Hget (or_intror eq_refl))
    as (d' & _ & _ & _ & Hdiff).
  exists d'. rewrite Hdiff. cbn [modified].
  rewrite decide_True; [reflexivity|]. right. discriminate.
Defined.

Lemma events_dropped_while_downloading_witness :
  FileWatcher.shouldIgnoreFile hidden_path = true
  ∧ FileWatcher.handleFileChange hidden_path FileWatcher.Add clock0 initial_client
    = initial_client.
Proof.
  assert (FileWatcher.shouldIgnoreFile hidden_path = true) as Hign
    by (vm_compute; reflexivity).
  split; [exact Hign|].
  exact (proj2 (events_dropped_while_downloading hidden_path FileWatcher.Add clock0
                  disk_downloaded initial_client) Hign).
Defined.

Lemma notes_not_ignored : FileWatcher.shouldIgnoreFile notes_path = false.
Proof. vm_compute. reflexivity. Defined.

Lemma client_tracking_notes_keys :
  NoDup (map_keys (ClientMerkle.leaves (FileWatcher.merkleTree client_tracking_notes))).
Proof. exact (proj1 tree_detected_by_own_path). Defined.

Lemma unlink_event_effect_witness :
  FileWatcher.shouldIgnoreFile notes_path = false
  ∧ (path_relative WATCH_DIRECTORY notes_path
     ∉ FileWatcher.downloadingFiles client_tracking_notes)
  ∧ NoDup (map_keys (ClientMerkle.leaves (FileWatcher.merkleTree client_tracking_notes)))
  ∧ ClientMerkle.getFile (path_relative WATCH_DIRECTORY notes_path)
      (FileWatcher.merkleTree
         (FileWatcher.handleFileChange notes_path FileWatcher.Unlink clock1
            client_tracking_notes))
    = None.
Proof.
  assert (path_relative WATCH_DIRECTORY notes_path
          ∉ FileWatcher.downloadingFiles client_tracking_notes) as Hnot
    by apply not_elem_of_empty.
  split; [exact notes_not_ignored|]. split; [exact Hnot|].
  split; [exact client_tracking_notes_keys|].
  exact (proj1 (unlink_event_effect notes_path clock1 client_tracking_notes
                  notes_not_ignored Hnot client_tracking_notes_keys)).
Defined.

Lemma processUploadQueue_drains_witness :
  FileWatcher.isProcessing client_with_queued_notes = false
  ∧ FileWatcher.uploadQueue client_with_queued_notes ≠ []
  ∧ FileWatcher.uploadQueue
      (UploadScheduler.processUploadQueue accepting_uploads clock1
         client_with_queued_notes).1
    = []
  ∧ FileWatcher.isProcessing
      (UploadScheduler.processUploadQueue accepting_uploads clock1
         client_with_queued_notes).1
    = false.
Proof.
  assert (FileWatcher.isProcessing client_with_queued_notes = false) as Hp
    by (vm_compute; reflexivity).
  assert (FileWatcher.uploadQueue client_with_queued_notes ≠ []) as Hq
    by (vm_compute; discriminate).
  split; [exact Hp|]. split; [exact Hq|].
  destruct (processUploadQueue_drains accepting_uploads clock1 client_with_queued_notes
              Hp Hq) as (Hempty & Hflag & _).
  split; [exact Hempty | exact Hflag].
Defined.

Lemma rapid_events_give_one_upload_witness :
  map_keys (FileWatcher.uploadQueue (after_events notes_path two_saves initial_client))
  = [path_relative WATCH_DIRECTORY notes_path]
  ∧ length (UploadScheduler.processUploadQueue accepting_uploads clock1
              (after_events notes_path two_saves initial_client)).2
    = 1%nat.
Proof.
  destruct (rapid_events_give_one_upload notes_path two_saves accepting_uploads clock1
              initial_client notes_not_ignored
              ltac:(apply not_elem_of_empty) ltac:(apply lookup_empty)
              eq_refl eq_refl ltac:(discriminate)
              ltac:(exists "hello w0rld"; vm_compute; reflexivity))
    as [Hkeys Hups].
  split; [exact Hkeys|]. rewrite Hups. reflexivity.
Defined.

Lemma download_then_event_witness :
  let c' := Sync.downloadFileFromServer served_notes notes_server clock0 initial_client in
  FileWatcher.handleFileChange
    (path_join WATCH_DIRECTORY (file_path served_notes)) FileWatcher.Change clock1 c'
  = c'.
Proof.
  intros c'.
  destruct (download_then_event served_notes notes_server clock0 clock1 initial_client
              "hello world" FileWatcher.Change
              ltac:(vm_compute; discriminate) eq_refl eq_refl eq_refl) as [Hsame _].
  apply Hsame. vm_compute. reflexivity.
Defined.

Lemma download_without_id_blocks_path_witness :
  truthy (file_id notes_file) = false
  ∧ path_relative WATCH_DIRECTORY (path_join WATCH_DIRECTORY (file_path notes_file))
    ∈ FileWatcher.downloadingFiles
        (Sync.downloadFileFromServer notes_file notes_server clock0 initial_client).
Proof.
  split; [reflexivity|].
  exact (proj1 (download_without_id_blocks_path notes_file notes_server clock0 clock1
                  initial_client FileWatcher.Change disk_downloaded eq_refl
                  ltac:(vm_compute; discriminate))).
Defined.




Lemma no_tree_one_row_per_device : one_row_per_device [].
Proof. intros userId deviceId. apply Nat.le_0_l. Defined.

Lemma post_update_keeps_one_row_per_device_witness :
  one_row_per_device []
  ∧ one_row_per_device
      (MerkleRoutes.post_update "user-1" "client-1" (snapshot_of [notes_file]) "tree-1"
         1714557600000 []).1.
Proof.
  split; [exact no_tree_one_row_per_device|].
  exact (post_update_keeps_one_row_per_device "user-1" "client-1" (snapshot_of [notes_file])
           "tree-1" 1714557600000 [] no_tree_one_row_per_device).
Defined.

Lemma upload_same_content_twice_witness :
  FilesRoutes.post_upload "user-1" (Some notes_upload) (Some "/docs") JUndefined working_minio
    first_request empty_store
  = (store_with_notes,
     FilesRoutes.Uploaded201 (FilesRoutes.file_info notes_row ("http://minio:9000/" +:+ notes_key)))
  ∧ ∃ st2 info',
      FilesRoutes.post_upload "user-1" (Some copy_upload) None JUndefined
        working_minio second_request store_with_notes
      = (st2, FilesRoutes.AlreadyExists200 info')
      ∧ FilesRoutes.fi_id info' = "file-1"
      ∧ FilesRoutes.fi_filename info' = "notes.txt"
      ∧ length (FilesRoutes.rows st2) = 1%nat.
Proof.
  assert (FilesRoutes.post_upload "user-1" (Some notes_upload) (Some "/docs") JUndefined
            working_minio first_request empty_store
          = (store_with_notes,
             FilesRoutes.Uploaded201
               (FilesRoutes.file_info notes_row ("http://minio:9000/" +:+ notes_key))))
    as Hfirst by (vm_compute; reflexivity).
  split; [exact Hfirst|].
  destruct (upload_same_content_twice "user-1" notes_upload copy_upload (Some "/docs") None
              JUndefined JUndefined working_minio working_minio first_request
              second_request empty_store store_with_notes _
              ("http://minio:9000/" +:+ notes_key) Hfirst eq_refl eq_refl)
    as (st2 & info' & Hsecond & Hid & Hname & _ & Hlen & _).
  exists st2, info'. repeat split; assumption.
Defined.

Lemma empty_store_one_active_row : one_active_row_per_hash empty_store.
Proof. intros userId fileHash. apply Nat.le_0_l. Defined.

Lemma post_upload_keeps_one_active_row_witness :
  one_active_row_per_hash empty_store
  ∧ one_active_row_per_hash
      (FilesRoutes.post_upload "user-1" (Some notes_upload) (Some "/docs") JUndefined working_minio
         first_request empty_store).1.
Proof.
  split; [exact empty_store_one_active_row|].
  exact (post_upload_keeps_one_active_row "user-1" (Some notes_upload) (Some "/docs") JUndefined
           working_minio first_request empty_store empty_store_one_active_row).
Defined.

Lemma store_with_notes_one_active_row : one_active_row_per_hash store_with_notes.
Proof.
  intros userId fileHash. cbn [FilesRoutes.rows store_with_notes].
  rewrite filter_cons, filter_nil.
  destruct (decide (FilesRoutes.is_active_with_hash userId fileHash notes_row = true));
    cbn [length]; [apply le_n | apply Nat.le_0_l].
Defined.

Lemma delete_by_hash_effect_witness :
  one_active_row_per_hash store_with_notes
  ∧ (FilesRoutes.delete_by_hash "user-1" notes_hash minio_refusing_removal
       store_with_notes).2
    = FilesRoutes.Deleted200 "file-1"
  ∧ filter (λ r, FilesRoutes.is_active_with_hash "user-1" notes_hash r = true)
      (FilesRoutes.rows
         (FilesRoutes.delete_by_hash "user-1" notes_hash minio_refusing_removal
            store_with_notes).1)
    = []
  ∧ FilesRoutes.objects
      (FilesRoutes.delete_by_hash "user-1" notes_hash minio_refusing_removal
         store_with_notes).1
    = FilesRoutes.objects store_with_notes.
Proof.
  assert ((FilesRoutes.delete_by_hash "user-1" notes_hash minio_refusing_removal
             store_with_notes).2 = FilesRoutes.Deleted200 "file-1") as Hans
    by (vm_compute; reflexivity).
  split; [exact store_with_notes_one_active_row|]. split; [exact Hans|].
  destruct (delete_by_hash_effect "user-1" notes_hash minio_refusing_removal working_minio
              store_with_notes "file-1" store_with_notes_one_active_row Hans)
    as (Hgone & _ & _ & Hobjects).
  split; [exact Hgone | exact (Hobjects eq_refl)].
Defined.

Lemma errorHandler_hides_message_witness :
  JString "production" ≠ JString "development"
  ∧ ErrorHandler.errorHandler (JString "production")
      {| ErrorHandler.isJoi := false; ErrorHandler.details := [];
         ErrorHandler.code := JUndefined;
         ErrorHandler.message := "connect ECONNREFUSED 10.0.0.5:5432" |}
    = ErrorHandler.errorHandler (JString "production")
        {| ErrorHandler.isJoi := false; ErrorHandler.details := [];
           ErrorHandler.code := JUndefined;
           ErrorHandler.message := "boom" |}.
Proof.
  assert (JString "production" ≠ JString "development") as Henv by discriminate.
  split; [exact Henv|].
  exact (proj2 (errorHandler_hides_message (JString "production")
                  {| ErrorHandler.isJoi := false; ErrorHandler.details := [];
                     ErrorHandler.code := JUndefined;
                     ErrorHandler.message := "boom" |}
                  "connect ECONNREFUSED 10.0.0.5:5432") Henv).
Defined.

End MoreWitnesses.
